(** * FoodRecipes: the recipe collection and the view-state machine of [App.tsx]

    A shallow embedding of the stateful core of [src/App.tsx]: the React
    state of the [App] component, the durable blob kept in [AsyncStorage]
    under [STORAGE_KEY], and the event handlers ([loadRecipes],
    [saveRecipesToStorage], [handleSave], [handleDelete], [openDetail] and
    the inline [onPress] callbacks of the three screens).

    Handlers are written in a small state-and-exception monad [Js] so that
    they read like the TypeScript they come from.  What the platform decides
    (whether a storage call is rejected, what [Date.now()] returns, what the
    user answers in the confirmation dialog) is an explicit argument of the
    handler.  An [async] handler can be run up to the settlement of the
    promise it awaits ([handleDelete], [perform]); [handleSave], which does
    not await the write it starts, returns that write as a pending task.
    The sessions in which the user goes on while writes are in flight are
    those of [step], where a write settles as an event of its own. *)

From Stdlib Require Import ZArith String Ascii DecimalString DecimalZ.
From stdpp Require Import base option list strings gmap.

(** ** Data model *)

(** [type Recipe] (App.tsx, lines 11-22).  [image] is [string | null]. *)
Record Recipe := mkRecipe {
  id : string;
  title : string;
  image : option string;
  category : string;
  servings : string;
  prepTime : string;
  cookTime : string;
  description : string;
  ingredients : string;
  instructions : string;
}.

#[export] Instance Recipe_eq_dec : EqDecision Recipe.
Proof. solve_decision. Defined.

(** [Partial<Recipe>]: every field may be absent ([None] is [undefined]);
    [image], when present, is still [string | null]. *)
Module Partial.
Record t := mk {
  id : option string;
  title : option string;
  image : option (option string);
  category : option string;
  servings : option string;
  prepTime : option string;
  cookTime : option string;
  description : option string;
  ingredients : option string;
  instructions : option string;
}.

(** The object literal [{}]. *)
Definition empty : t := mk None None None None None None None None None None.

(** [{ ...form, title: t }] and its siblings, one per input of the form. *)
Definition with_title (v : string) (f : t) : t :=
  mk (id f) (Some v) (image f) (category f) (servings f) (prepTime f)
     (cookTime f) (description f) (ingredients f) (instructions f).
Definition with_image (v : string) (f : t) : t :=
  mk (id f) (title f) (Some (Some v)) (category f) (servings f) (prepTime f)
     (cookTime f) (description f) (ingredients f) (instructions f).
Definition with_category (v : string) (f : t) : t :=
  mk (id f) (title f) (image f) (Some v) (servings f) (prepTime f)
     (cookTime f) (description f) (ingredients f) (instructions f).
Definition with_servings (v : string) (f : t) : t :=
  mk (id f) (title f) (image f) (category f) (Some v) (prepTime f)
     (cookTime f) (description f) (ingredients f) (instructions f).
Definition with_prepTime (v : string) (f : t) : t :=
  mk (id f) (title f) (image f) (category f) (servings f) (Some v)
     (cookTime f) (description f) (ingredients f) (instructions f).
Definition with_cookTime (v : string) (f : t) : t :=
  mk (id f) (title f) (image f) (category f) (servings f) (prepTime f)
     (Some v) (description f) (ingredients f) (instructions f).
Definition with_description (v : string) (f : t) : t :=
  mk (id f) (title f) (image f) (category f) (servings f) (prepTime f)
     (cookTime f) (Some v) (ingredients f) (instructions f).
Definition with_ingredients (v : string) (f : t) : t :=
  mk (id f) (title f) (image f) (category f) (servings f) (prepTime f)
     (cookTime f) (description f) (Some v) (instructions f).
Definition with_instructions (v : string) (f : t) : t :=
  mk (id f) (title f) (image f) (category f) (servings f) (prepTime f)
     (cookTime f) (description f) (ingredients f) (Some v).
End Partial.

(** The union type of [view]: ['LIST' | 'ADD' | 'DETAIL']. *)
Inductive View := LIST | ADD | DETAIL.

#[export] Instance View_eq_dec : EqDecision View.
Proof. solve_decision. Defined.

(** What a rejected promise or a throwing call carries. *)
Inductive Exn :=
  | SyntaxError   (* thrown by [JSON.parse] *)
  | StorageError  (* a rejected [AsyncStorage] call *)
  | PickerError.  (* a rejected [ImagePicker.launchImageLibraryAsync] call *)

(** The component's [useState] cells, the platform's key-value store, and
    the two places where the code reports to the outside: the dialogs
    shown to the user ([Alert.alert(title, message)], oldest first) and the
    console. *)
Record World := mkWorld {
  recipes : list Recipe;
  view : View;
  selectedRecipe : option Recipe;
  loading : bool;
  form : Partial.t;
  storage : gmap string string;
  alerts : list (string * string);
  console : list Exn;
}.

Definition STORAGE_KEY : string := "@food_recipes_data".

(** ** JavaScript values and operators used by the handlers *)

(** Truthiness of an optional string: [undefined] and [''] are falsy. *)
Definition truthy (v : option string) : bool :=
  match v with
  | Some s => negb (String.eqb s "")
  | None => false
  end.

(** [v || d] for an optional string [v] and a string default [d]. *)
Definition or_string (v : option string) (d : string) : string :=
  match v with
  | Some s => if String.eqb s "" then d else s
  | None => d
  end.

(** [v || null] for [v : string | null | undefined]. *)
Definition or_null (v : option (option string)) : option string :=
  match v with
  | Some (Some s) => if String.eqb s "" then None else Some s
  | _ => None
  end.

(** [n.toString()] for the integer number [n] that [Date.now()] returns:
    decimal digits, a leading minus sign below zero. *)
Definition toString (n : Z) : string := NilEmpty.string_of_int (Z.to_int n).

(** ** The monad of handlers: state, and exceptions that keep the state *)

Definition Js (A : Type) : Type := World → (Exn + A) * World.

#[export] Instance Js_ret : MRet Js := λ A a w, (inr a, w).

#[export] Instance Js_bind : MBind Js := λ A B f m w,
  match m w with
  | (inr a, w') => f a w'
  | (inl e, w') => (inl e, w')
  end.

#[export] Instance Js_throw : MThrow Exn Js := λ A e w, (inl e, w).

(** [try { body } catch (e) { handler }] *)
Definition try_catch {A} (body : Js A) (handler : Exn → Js A) : Js A := λ w,
  match body w with
  | (inl e, w') => handler e w'
  | (inr a, w') => (inr a, w')
  end.

(** [try { body } catch (e) { handler } finally { fin }] *)
Definition try_catch_finally {A} (body : Js A) (handler : Exn → Js A)
    (fin : Js unit) : Js A := λ w,
  let '(r, w') := try_catch body handler w in
  match fin w' with
  | (inr _, w'') => (r, w'')
  | (inl e, w'') => (inl e, w'')
  end.

(** The world a handler leaves behind. *)
Definition exec {A} (m : Js A) (w : World) : World := (m w).2.

(** *** Reading the state captured by the render closure *)

Definition useRecipes : Js (list Recipe) := λ w, (inr (recipes w), w).
Definition useSelectedRecipe : Js (option Recipe) := λ w, (inr (selectedRecipe w), w).
Definition useForm : Js Partial.t := λ w, (inr (form w), w).

(** *** The state setters returned by [useState] *)

Definition setRecipes (l : list Recipe) : Js unit := λ w,
  (inr (), mkWorld l (view w) (selectedRecipe w) (loading w) (form w)
                   (storage w) (alerts w) (console w)).
Definition setView (v : View) : Js unit := λ w,
  (inr (), mkWorld (recipes w) v (selectedRecipe w) (loading w) (form w)
                   (storage w) (alerts w) (console w)).
Definition setSelectedRecipe (r : option Recipe) : Js unit := λ w,
  (inr (), mkWorld (recipes w) (view w) r (loading w) (form w)
                   (storage w) (alerts w) (console w)).
Definition setLoading (b : bool) : Js unit := λ w,
  (inr (), mkWorld (recipes w) (view w) (selectedRecipe w) b (form w)
                   (storage w) (alerts w) (console w)).
Definition setForm (f : Partial.t) : Js unit := λ w,
  (inr (), mkWorld (recipes w) (view w) (selectedRecipe w) (loading w) f
                   (storage w) (alerts w) (console w)).

(** *** Platform calls *)

(** [Alert.alert(title, message)] *)
Definition Alert_alert (ttl msg : string) : Js unit := λ w,
  (inr (), mkWorld (recipes w) (view w) (selectedRecipe w) (loading w) (form w)
                   (storage w) (alerts w ++ [(ttl, msg)]) (console w)).

(** [console.error(e)] *)
Definition console_error (e : Exn) : Js unit := λ w,
  (inr (), mkWorld (recipes w) (view w) (selectedRecipe w) (loading w) (form w)
                   (storage w) (alerts w) (console w ++ [e])).

(** [await AsyncStorage.getItem(key)]: the stored string, [null] when the
    key is absent; the promise is rejected when the platform says so. *)
Definition AsyncStorage_getItem (ok : bool) (key : string) : Js (option string) :=
  if ok then λ w, (inr (storage w !! key), w) else mthrow StorageError.

(** [await AsyncStorage.setItem(key, value)]: overwrites the blob; a
    rejected write leaves the store as it was. *)
Definition AsyncStorage_setItem (ok : bool) (key value : string) : Js unit :=
  if ok then λ w,
    (inr (), mkWorld (recipes w) (view w) (selectedRecipe w) (loading w) (form w)
                     (<[key := value]> (storage w)) (alerts w) (console w))
  else mthrow StorageError.

(** [JSON.stringify] and [JSON.parse] at the type the application uses them:
    the first is total on arrays of recipes, the second throws a
    [SyntaxError] ([None]) on a text that is not JSON.  The code gives the
    result of [JSON.parse] the type [Recipe[]] without looking at it; the
    interface does the same, and says nothing of texts that are JSON of
    another shape. *)
Class JSON := {
  JSON_stringify : list Recipe → string;
  JSON_parse : string → option (list Recipe);
}.

Section App.
Context `{JSON}.

Definition JSON_parse_or_throw (s : string) : Js (list Recipe) :=
  match JSON_parse s with
  | Some v => mret v
  | None => mthrow SyntaxError
  end.

(** ** Handlers *)

(** [loadRecipes] (lines 39-51). *)
Definition loadRecipes (read_ok : bool) : Js unit :=
  try_catch_finally
    (jsonValue ← AsyncStorage_getItem read_ok STORAGE_KEY;
     match jsonValue with
     | Some j => v ← JSON_parse_or_throw j; setRecipes v
     | None => mret ()
     end)
    (λ e, console_error e;; Alert_alert "Error" "Failed to load recipes")
    (setLoading false).

(** [saveRecipesToStorage] (lines 53-62), run until the write settles. *)
Definition saveRecipesToStorage (write_ok : bool) (newRecipes : list Recipe) : Js unit :=
  try_catch
    (let jsonValue := JSON_stringify newRecipes in
     AsyncStorage_setItem write_ok STORAGE_KEY jsonValue;;
     setRecipes newRecipes)
    (λ e, console_error e;; Alert_alert "Error" "Failed to save recipe").

(** The object literal of lines 84-95. *)
Definition newRecipe (now : Z) (form : Partial.t) : Recipe := {|
  id := toString now;
  title := or_string (Partial.title form) "";
  image := or_null (Partial.image form);
  category := or_string (Partial.category form) "General";
  servings := or_string (Partial.servings form) "";
  prepTime := or_string (Partial.prepTime form) "";
  cookTime := or_string (Partial.cookTime form) "";
  description := or_string (Partial.description form) "";
  ingredients := or_string (Partial.ingredients form) "";
  instructions := or_string (Partial.instructions form) "";
|}.

(** A write that has been started and not awaited: what remains to run
    once the platform has decided whether it succeeds. *)
Definition Task : Type := bool → Js unit.

(** [handleSave] (lines 78-101).  [now] is the value of [Date.now()].
    The call of [saveRecipesToStorage] is not awaited: the handler goes on
    to [setForm] and [setView] and returns while the write is in flight. *)
Definition handleSave (now : Z) : Js (option Task) :=
  form ← useForm;
  recipes ← useRecipes;
  if negb (truthy (Partial.title form)) || negb (truthy (Partial.ingredients form)) then
    Alert_alert "Missing Fields" "Title and Ingredients are required.";;
    mret None
  else
    let updated := newRecipe now form :: recipes in
    let pending : Task := λ write_ok, saveRecipesToStorage write_ok updated in
    setForm Partial.empty;;
    setView LIST;;
    mret (Some pending).

(** Settling what [handleSave] left in flight. *)
Definition settle (write_ok : bool) (pending : option Task) : Js unit :=
  match pending with
  | Some task => task write_ok
  | None => mret ()
  end.

(** The save action from the tap to the settlement of its write. *)
Definition handleSave_settled (now : Z) (write_ok : bool) : Js unit :=
  pending ← handleSave now;
  settle write_ok pending.

(** [handleDelete] (lines 103-110). *)
Definition handleDelete (write_ok : bool) (i : string) : Js unit :=
  recipes ← useRecipes;
  selectedRecipe ← useSelectedRecipe;
  let updated := filter (λ r, id r ≠ i) recipes in
  saveRecipesToStorage write_ok updated;;
  if bool_decide (id <$> selectedRecipe = Some i) then
    setSelectedRecipe None;;
    setView LIST
  else mret ().

(** [openDetail] (lines 112-115). *)
Definition openDetail (recipe : Recipe) : Js unit :=
  setSelectedRecipe (Some recipe);;
  setView DETAIL.

(** The [onPress] of the "+" button of the list screen (line 151). *)
Definition pressAdd : Js unit :=
  setForm Partial.empty;;
  setView ADD.

(** The [onPress] of "Cancel" on the add screen (line 221). *)
Definition pressCancel : Js unit := setView LIST.

(** The [onPress] of "Back" on the detail screen (line 261). *)
Definition pressBack : Js unit := setView LIST.

(** The [onChangeText] callbacks of the add screen:
    [setForm({ ...form, field: t })]. *)
Definition onChangeText (field : string → Partial.t → Partial.t) (t : string) : Js unit :=
  form ← useForm;
  setForm (field t form).

(** The [onPress] of the bin on the detail screen (line 265): a dialog
    whose "Delete" button calls [handleDelete(selectedRecipe.id)] and whose
    "Cancel" button does nothing; the screen, and so the bin, exists only
    while a recipe is selected (line 232). *)
Definition pressDelete (confirmed write_ok : bool) : Js unit :=
  selectedRecipe ← useSelectedRecipe;
  match selectedRecipe with
  | Some r =>
      Alert_alert "Delete" "Are you sure?";;
      if confirmed then handleDelete write_ok (id r) else mret ()
  | None => mret ()
  end.

(** [handlePickImage] (lines 64-76) once the awaited picker has resolved;
    [result] is the uri of the picked asset, [None] when the picker was
    cancelled.  (The rejected picker is in [handlePickImage_awaited].) *)
Definition handlePickImage (result : option string) : Js unit :=
  form ← useForm;
  match result with
  | Some uri => setForm (Partial.with_image uri form)
  | None => mret ()
  end.

(** The component as it is first rendered over a given store: the
    initial values of the [useState] cells (lines 27-33). *)
Definition mount (disk : gmap string string) : World :=
  mkWorld [] LIST None true Partial.empty disk [] [].

(** A launch of the application: first render, then the effect of
    lines 35-37. *)
Definition launch (read_ok : bool) (disk : gmap string string) : World :=
  exec (loadRecipes read_ok) (mount disk).

End App.

(** ** A reference codec

    One implementation of the [JSON] interface, used to run the handlers on
    concrete stores: [stringify] writes the text [JSON.stringify] writes for
    an array of recipes (no white space, fields in declaration order, string
    escapes of [QuoteJSONString]), and [parse] reads back exactly the texts
    of that shape and rejects every other text. *)
Module RefJSON.

Definition dquote : ascii := "034"%char.
Definition backslash : ascii := "092"%char.

Definition hex_char (n : N) : ascii :=
  ascii_of_N (if (n <? 10)%N then 48 + n else 87 + n).

Definition hex_value (c : ascii) : option N :=
  let n := N_of_ascii c in
  if (48 <=? n)%N && (n <=? 57)%N then Some (n - 48)%N
  else if (97 <=? n)%N && (n <=? 102)%N then Some (n - 87)%N
  else if (65 <=? n)%N && (n <=? 70)%N then Some (n - 55)%N
  else None.

(** The escape of one code unit inside a JSON string. *)
Definition escape (c : ascii) : string :=
  let n := N_of_ascii c in
  if Ascii.eqb c dquote then String backslash (String dquote "")
  else if Ascii.eqb c backslash then String backslash (String backslash "")
  else if (n =? 8)%N then String backslash "b"
  else if (n =? 9)%N then String backslash "t"
  else if (n =? 10)%N then String backslash "n"
  else if (n =? 12)%N then String backslash "f"
  else if (n =? 13)%N then String backslash "r"
  else if (n <? 32)%N then
    String backslash
      (String "u" (String "0" (String "0"
        (String (hex_char (n / 16)) (String (hex_char (n mod 16)) "")))))
  else String c "".

Fixpoint quote_body (s : string) : string :=
  match s with
  | EmptyString => EmptyString
  | String c s' => escape c +:+ quote_body s'
  end.

Definition quote (s : string) : string :=
  String dquote (quote_body s +:+ String dquote "").

Definition write_image (i : option string) : string :=
  match i with
  | Some s => quote s
  | None => "null"
  end.

Definition write_recipe (r : Recipe) : string :=
  "{" +:+ quote "id" +:+ ":" +:+ quote (id r) +:+
  "," +:+ quote "title" +:+ ":" +:+ quote (title r) +:+
  "," +:+ quote "image" +:+ ":" +:+ write_image (image r) +:+
  "," +:+ quote "category" +:+ ":" +:+ quote (category r) +:+
  "," +:+ quote "servings" +:+ ":" +:+ quote (servings r) +:+
  "," +:+ quote "prepTime" +:+ ":" +:+ quote (prepTime r) +:+
  "," +:+ quote "cookTime" +:+ ":" +:+ quote (cookTime r) +:+
  "," +:+ quote "description" +:+ ":" +:+ quote (description r) +:+
  "," +:+ quote "ingredients" +:+ ":" +:+ quote (ingredients r) +:+
  "," +:+ quote "instructions" +:+ ":" +:+ quote (instructions r) +:+ "}".

Fixpoint write_more (l : list Recipe) : string :=
  match l with
  | [] => "]"
  | r :: l' => "," +:+ write_recipe r +:+ write_more l'
  end.

Definition stringify (l : list Recipe) : string :=
  match l with
  | [] => "[]"
  | r :: l' => "[" +:+ write_recipe r +:+ write_more l'
  end.

(** [strip p s]: what follows [p] in [s], when [s] starts with [p]. *)
Fixpoint strip (p s : string) : option string :=
  match p, s with
  | EmptyString, _ => Some s
  | String a p', String b s' => if Ascii.eqb a b then strip p' s' else None
  | String _ _, EmptyString => None
  end.

(** The character a two-character escape stands for. *)
Definition unescape (e : ascii) : option ascii :=
  if Ascii.eqb e dquote then Some dquote
  else if Ascii.eqb e backslash then Some backslash
  else if Ascii.eqb e "/" then Some "/"%char
  else if Ascii.eqb e "b" then Some (ascii_of_N 8)
  else if Ascii.eqb e "t" then Some (ascii_of_N 9)
  else if Ascii.eqb e "n" then Some (ascii_of_N 10)
  else if Ascii.eqb e "f" then Some (ascii_of_N 12)
  else if Ascii.eqb e "r" then Some (ascii_of_N 13)
  else None.

(** The code unit of [\uXXXX], when it fits the one-byte characters of
    this development. *)
Definition unicode (h1 h2 h3 h4 : ascii) : option ascii :=
  a ← hex_value h1; b ← hex_value h2; c ← hex_value h3; d ← hex_value h4;
  let n := (a * 4096 + b * 256 + c * 16 + d)%N in
  if (n <? 256)%N then Some (ascii_of_N n) else None.

(** Reads the inside of a string literal up to its closing quote; returns
    the string denoted and the text after the quote. *)
Fixpoint unquote_body (s : string) : option (string * string) :=
  match s with
  | EmptyString => None
  | String c s' =>
      if Ascii.eqb c dquote then Some (EmptyString, s')
      else if Ascii.eqb c backslash then
        match s' with
        | String e s'' =>
            if Ascii.eqb e "u" then
              match s'' with
              | String h1 (String h2 (String h3 (String h4 s3))) =>
                  c' ← unicode h1 h2 h3 h4;
                  '(v, rest) ← unquote_body s3;
                  Some (String c' v, rest)
              | _ => None
              end
            else
              c' ← unescape e;
              '(v, rest) ← unquote_body s'';
              Some (String c' v, rest)
        | EmptyString => None
        end
      else if (N_of_ascii c <? 32)%N then None
      else
        '(v, rest) ← unquote_body s';
        Some (String c v, rest)
  end.

Definition unquote (s : string) : option (string * string) :=
  s' ← strip (String dquote "") s; unquote_body s'.

Definition read_image (s : string) : option (option string * string) :=
  match strip "null" s with
  | Some rest => Some (None, rest)
  | None => '(v, rest) ← unquote s; Some (Some v, rest)
  end.

(** A string-valued field [,"name":"value"] ([sep] is what precedes it). *)
Definition read_field (sep name : string) (s : string) : option (string * string) :=
  s ← strip (sep +:+ quote name +:+ ":") s; unquote s.

Definition read_recipe (s : string) : option (Recipe * string) :=
  '(v_id, s) ← read_field "{" "id" s;
  '(v_title, s) ← read_field "," "title" s;
  s ← strip ("," +:+ quote "image" +:+ ":") s;
  '(v_image, s) ← read_image s;
  '(v_category, s) ← read_field "," "category" s;
  '(v_servings, s) ← read_field "," "servings" s;
  '(v_prepTime, s) ← read_field "," "prepTime" s;
  '(v_cookTime, s) ← read_field "," "cookTime" s;
  '(v_description, s) ← read_field "," "description" s;
  '(v_ingredients, s) ← read_field "," "ingredients" s;
  '(v_instructions, s) ← read_field "," "instructions" s;
  s ← strip "}" s;
  Some (mkRecipe v_id v_title v_image v_category v_servings v_prepTime
                 v_cookTime v_description v_ingredients v_instructions, s).

(** The elements after the first, up to the closing bracket, which must end
    the text.  [fuel] bounds the number of elements read. *)
Fixpoint read_more (fuel : nat) (s : string) : option (list Recipe) :=
  match fuel with
  | O => None
  | S fuel' =>
      match s with
      | String "]" EmptyString => Some []
      | String "," s' =>
          '(r, rest) ← read_recipe s';
          l ← read_more fuel' rest;
          Some (r :: l)
      | _ => None
      end
  end.

Definition parse (s : string) : option (list Recipe) :=
  if String.eqb s "[]" then Some []
  else
    s' ← strip "[" s;
    '(r, rest) ← read_recipe s';
    l ← read_more (String.length s) rest;
    Some (r :: l).

Definition json : JSON := {| JSON_stringify := stringify; JSON_parse := parse |}.

End RefJSON.

(** ** The screens, one action at a time

    [perform] runs an action to its end: a save together with the
    settlement of the write it starts, a tap on the bin together with the
    answer to the dialog and the settlement of the delete.  It is the
    behaviour of the application as long as nothing is done while a write
    is in flight; the sessions in which writes overlap with other actions
    are those of [step], further down, of which [perform] is the special
    case [events_of]. *)

(** [const CATEGORIES] (line 8): the chips of the add screen. *)
Definition CATEGORIES : list string :=
  ["Breakfast"; "Lunch"; "Dinner"; "Snack"; "Dessert"].

(** The text inputs of the add screen (lines 173-216). *)
Inductive Input :=
  | InTitle | InServings | InPrepTime | InCookTime
  | InDescription | InIngredients | InInstructions.

Definition set_input (i : Input) : string → Partial.t → Partial.t :=
  match i with
  | InTitle => Partial.with_title
  | InServings => Partial.with_servings
  | InPrepTime => Partial.with_prepTime
  | InCookTime => Partial.with_cookTime
  | InDescription => Partial.with_description
  | InIngredients => Partial.with_ingredients
  | InInstructions => Partial.with_instructions
  end.

(** What the user can do, with what the platform answers. *)
Inductive Action :=
  | TapAdd
  | TapRecipe (r : Recipe)
  | Type_ (i : Input) (t : string)
  | TapCategory (cat : string)
  | PickImage (result : option string)
  | TapCancel
  | TapSave (now : Z) (write_ok : bool)
  | TapBack
  | TapDelete (confirmed write_ok : bool).

(** Which controls the rendered screen offers (lines 280-282): the list
    shows the "+" button and one card per recipe, the add screen its inputs
    and two buttons, the detail screen (when a recipe is selected, line 232)
    "Back" and the bin. *)
Definition enabled (a : Action) (w : World) : Prop :=
  match a with
  | TapAdd => view w = LIST
  | TapRecipe r => view w = LIST ∧ r ∈ recipes w
  | Type_ _ _ | PickImage _ | TapCancel | TapSave _ _ => view w = ADD
  | TapCategory cat => view w = ADD ∧ cat ∈ CATEGORIES
  | TapBack | TapDelete _ _ => view w = DETAIL ∧ is_Some (selectedRecipe w)
  end.

Definition perform `{JSON} (a : Action) : Js unit :=
  match a with
  | TapAdd => pressAdd
  | TapRecipe r => openDetail r
  | Type_ i t => onChangeText (set_input i) t
  | TapCategory cat => onChangeText Partial.with_category cat
  | PickImage result => handlePickImage result
  | TapCancel => pressCancel
  | TapSave now write_ok => handleSave_settled now write_ok
  | TapBack => pressBack
  | TapDelete confirmed write_ok => pressDelete confirmed write_ok
  end.

(** While the detail screen is shown, the recipe it shows is one of the
    collection. *)
Definition selection_ok (w : World) : Prop :=
  view w = DETAIL → ∀ r, selectedRecipe w = Some r → r ∈ recipes w.

(** The ids of the collection, in order. *)
Definition ids (w : World) : list string := id <$> recipes w.

(** A draft field the validation of [handleSave] counts as missing:
    [undefined] or the empty string. *)
Definition missing (v : option string) : Prop := v = None ∨ v = Some "".

(** One creation, run to its end before anything else is done: the add
    screen is opened, the form filled until it holds [draft], and saved when
    the clock reads [now]; the write settles, with outcome [write_ok],
    before the next creation begins.  (A save made while the write of
    another is in flight is the subject of [step].) *)
Record Creation := mkCreation {
  c_draft : Partial.t;
  c_now : Z;
  c_write_ok : bool;
}.

(** Whether a creation gets its recipe into the collection: the draft
    passes the validation of [handleSave] and the write is not rejected. *)
Definition accepted (c : Creation) : bool :=
  truthy (Partial.title (c_draft c)) && truthy (Partial.ingredients (c_draft c))
  && c_write_ok c.

Definition create `{JSON} (c : Creation) (w : World) : World :=
  exec (handleSave_settled (c_now c) (c_write_ok c))
       (exec (setForm (c_draft c)) (exec pressAdd w)).

Definition creates `{JSON} (cs : list Creation) (w : World) : World :=
  foldl (λ w c, create c w) w cs.

(** ** Sample data *)

Definition pasta_draft : Partial.t :=
  Partial.with_ingredients "eggs, flour" (Partial.with_title "Pasta" Partial.empty).

Definition pasta : Recipe :=
  mkRecipe "1700000000000" "Pasta" None "General" "" "" "" "" "eggs, flour" "".

(** The add screen with the pasta draft typed in, over an empty store. *)
Definition w_add_pasta : World :=
  mkWorld [] ADD None false pasta_draft ∅ [] [].

(** The add screen with only a description typed in. *)
Definition w_add_untitled : World :=
  mkWorld [] ADD None false (Partial.with_description "no title yet" Partial.empty) ∅ [] [].

(** A store holding the pasta, as written by the reference codec. *)
Definition pasta_disk : gmap string string :=
  {[STORAGE_KEY := RefJSON.stringify [pasta]]}.

(** The list screen showing the pasta. *)
Definition w_list_pasta : World :=
  mkWorld [pasta] LIST None false Partial.empty pasta_disk [] [].

(** Two creations of the pasta for which the clock reads the same
    millisecond (the wall clock was set back in between). *)
Definition same_instant : list Creation :=
  [mkCreation pasta_draft 1700000000000 true;
   mkCreation pasta_draft 1700000000000 true].

(** Two creations a minute apart. *)
Definition a_minute_apart : list Creation :=
  [mkCreation pasta_draft 1700000000000 true;
   mkCreation pasta_draft 1700000060000 true].

(** A store whose blob is not JSON. *)
Definition corrupt_disk : gmap string string := {[STORAGE_KEY := "[{"]}.

(** ** What is on the screen

    The render functions, as the content they put on the screen: every
    condition and every interpolated value of the JSX, without styles,
    placeholders of inputs and icons. *)

(** [s || d] for a string [s]. *)
Definition or_text (s d : string) : string := or_string (Some s) d.

(** The uri an [<Image>] is given under [image ? ... : ...] and
    [image && ...]: none for [null] and for the empty string. *)
Definition shown_image (i : option string) : option string := or_null (Some i).

(** A card of the list (lines 125-145): its React [key], its picture
    ([None] is the "No Image" box), title, category, and the texts
    interpolated before "prep" and "cook". *)
Record Card := mkCard {
  card_key : string;
  card_image : option string;
  card_title : string;
  card_category : string;
  card_prep : string;
  card_cook : string;
}.

Definition card (recipe : Recipe) : Card := {|
  card_key := id recipe;
  card_image := shown_image (image recipe);
  card_title := title recipe;
  card_category := category recipe;
  card_prep := or_text (prepTime recipe) "-";
  card_cook := or_text (cookTime recipe) "-";
|}.

(** The scroll area of [renderList] (lines 121-147). *)
Inductive ListBody :=
  | EmptyText (msg : string)
  | Cards (cards : list Card).

Definition renderList (w : World) : ListBody :=
  if bool_decide (length (recipes w) = 0) then EmptyText "No recipes yet. Tap + to add."
  else Cards (card <$> recipes w).

(** [renderAdd] (lines 159-229): the photo box ([None] is "+ Add Photo"),
    the [value] of each input, and the chips with whether each is drawn
    selected ([form.category === cat]). *)
Record AddView := mkAddView {
  add_photo : option string;
  add_title : option string;
  add_chips : list (string * bool);
  add_servings : option string;
  add_prepTime : option string;
  add_cookTime : option string;
  add_description : option string;
  add_ingredients : option string;
  add_instructions : option string;
}.

Definition renderAdd (w : World) : AddView := {|
  add_photo := or_null (Partial.image (form w));
  add_title := Partial.title (form w);
  add_chips :=
    (λ cat, (cat, bool_decide (Partial.category (form w) = Some cat))) <$> CATEGORIES;
  add_servings := Partial.servings (form w);
  add_prepTime := Partial.prepTime (form w);
  add_cookTime := Partial.cookTime (form w);
  add_description := Partial.description (form w);
  add_ingredients := Partial.ingredients (form w);
  add_instructions := Partial.instructions (form w);
|}.

(** The [value] the add screen gives to a text input. *)
Definition shown_input (i : Input) (v : AddView) : option string :=
  match i with
  | InTitle => add_title v
  | InServings => add_servings v
  | InPrepTime => add_prepTime v
  | InCookTime => add_cookTime v
  | InDescription => add_description v
  | InIngredients => add_ingredients v
  | InInstructions => add_instructions v
  end.

(** The chips drawn selected. *)
Definition selected_chips (v : AddView) : list string :=
  (filter (λ c, c.2 = true) (add_chips v)).*1.

(** [renderDetail] (lines 231-273): the picture and the description are
    there only when truthy. *)
Record DetailView := mkDetailView {
  detail_image : option string;
  detail_title : string;
  detail_category : string;
  detail_servings : string;
  detail_prepTime : string;
  detail_cookTime : string;
  detail_description : option string;
  detail_ingredients : string;
  detail_instructions : string;
}.

(** [None] is the [null] of line 232: nothing is drawn. *)
Definition renderDetail (w : World) : option DetailView :=
  match selectedRecipe w with
  | None => None
  | Some r => Some {|
      detail_image := shown_image (image r);
      detail_title := title r;
      detail_category := category r;
      detail_servings := servings r;
      detail_prepTime := prepTime r;
      detail_cookTime := cookTime r;
      detail_description :=
        if String.eqb (description r) "" then None else Some (description r);
      detail_ingredients := ingredients r;
      detail_instructions := instructions r;
    |}
  end.

(** What [App] returns (lines 275-284). *)
Inductive Screen :=
  | Spinner
  | ListScreen (body : ListBody)
  | AddScreen (v : AddView)
  | DetailScreen (v : option DetailView).

Definition render (w : World) : Screen :=
  if loading w then Spinner
  else match view w with
       | LIST => ListScreen (renderList w)
       | ADD => AddScreen (renderAdd w)
       | DETAIL => DetailScreen (renderDetail w)
       end.

(** ** Predicates of the properties below *)

(** The blob under the key is the text of the collection in memory. *)
Definition synced `{JSON} (w : World) : Prop :=
  storage w !! STORAGE_KEY = Some (JSON_stringify (recipes w)).

(** A recipe as [handleSave] builds them: title, ingredients and category
    are not empty. *)
Definition well_formed (r : Recipe) : Prop :=
  title r ≠ "" ∧ ingredients r ≠ "" ∧ category r ≠ "".

(** The detail view, when shown, has a recipe to show. *)
Definition detail_has_recipe (w : World) : Prop :=
  view w = DETAIL → is_Some (selectedRecipe w).

(** A collection of two recipes with distinct ids, for the examples. *)
Definition salad : Recipe :=
  mkRecipe "1700000060000" "Salad" (Some "file:///salad.jpg") "Lunch" "2" "" ""
           "green" "lettuce" "toss".

Definition w_detail_two : World :=
  mkWorld [salad; pasta] DETAIL (Some salad) false Partial.empty ∅ [] [].

(** ** Sessions with writes in flight

    [handleSave] does not await the write it starts, and the "Delete" button
    of the dialog does not await [handleDelete]: the user can go on while a
    write is in flight, and what remains of the handler runs, with the
    values its closure captured, when the write settles.  A session state
    is the world, the writes in flight in the order they were started, and
    the confirmation dialog when it is up. *)

(** What [await ImagePicker.launchImageLibraryAsync(...)] gives: a result
    ([None] when the user cancelled), or a rejection. *)
Inductive Picker :=
  | PickerResolved (result : option string)
  | PickerRejected.

(** [handlePickImage] (lines 64-76) from the tap on: the awaited call has no
    [try] around it, so its rejection leaves the handler. *)
Definition handlePickImage_awaited (p : Picker) : Js unit :=
  match p with
  | PickerResolved result => handlePickImage result
  | PickerRejected => mthrow PickerError
  end.

(** The write [handleSave] leaves in flight (line 98), for its [updated]. *)
Definition save_task `{JSON} (updated : list Recipe) : Task :=
  λ write_ok, saveRecipesToStorage write_ok updated.

(** [handleDelete] from its [await] on (lines 105-109), for the [updated],
    [selectedRecipe] and [id] of the call. *)
Definition handleDelete_rest `{JSON}
    (updated : list Recipe) (selectedRecipe : option Recipe) (i : string) : Task :=
  λ write_ok,
    saveRecipesToStorage write_ok updated;;
    if bool_decide (id <$> selectedRecipe = Some i) then
      setSelectedRecipe None;;
      setView LIST
    else mret ().

(** The call [handleDelete(i)] of the closure created by the render of [w]
    (line 104 with the [recipes] and [selectedRecipe] of that render). *)
Definition handleDelete_from `{JSON} (w : World) (i : string) : Task :=
  handleDelete_rest (filter (λ r, id r ≠ i) (recipes w)) (selectedRecipe w) i.

Record Session := mkSession {
  world : World;
  in_flight : list Task;
  dialog : option Task;   (* what "Delete" will start, while the dialog is up *)
}.

(** Nothing in flight, no dialog. *)
Definition idle (w : World) : Session := mkSession w [] None.

Inductive Event :=
  | ETapAdd
  | ETapRecipe (r : Recipe)
  | EType (i : Input) (t : string)
  | ETapCategory (cat : string)
  | EPickImage (p : Picker)
  | ETapCancel
  | ETapSave (now : Z)
  | ETapBack
  | ETapBin
  | EAnswer (confirmed : bool)
  | ESettle (k : nat) (write_ok : bool).  (* the [k]-th write in flight settles *)

Definition is_settle (e : Event) : bool :=
  match e with
  | ESettle _ _ => true
  | _ => false
  end.

(** What can happen in a session state: a write in flight can settle at any
    time; the dialog, while up, takes an answer and hides everything else;
    otherwise the controls of the rendered screen, as in [enabled]. *)
Definition offered (e : Event) (s : Session) : bool :=
  let w := world s in
  match e with
  | ESettle k _ => bool_decide (k < length (in_flight s))
  | EAnswer _ => if dialog s is Some _ then true else false
  | _ =>
      (if dialog s is Some _ then false else true)
      && match e with
         | ETapAdd => bool_decide (view w = LIST)
         | ETapRecipe r => bool_decide (view w = LIST) && bool_decide (r ∈ recipes w)
         | EType _ _ | EPickImage _ | ETapCancel | ETapSave _ => bool_decide (view w = ADD)
         | ETapCategory cat => bool_decide (view w = ADD) && bool_decide (cat ∈ CATEGORIES)
         | ETapBack | ETapBin =>
             bool_decide (view w = DETAIL)
             && (if selectedRecipe w is Some _ then true else false)
         | EAnswer _ | ESettle _ _ => false
         end
  end.

Definition step `{JSON} (e : Event) (s : Session) : Session :=
  let w := world s in
  match e with
  | ETapAdd => mkSession (exec pressAdd w) (in_flight s) (dialog s)
  | ETapRecipe r => mkSession (exec (openDetail r) w) (in_flight s) (dialog s)
  | EType i t => mkSession (exec (onChangeText (set_input i) t) w) (in_flight s) (dialog s)
  | ETapCategory cat =>
      mkSession (exec (onChangeText Partial.with_category cat) w) (in_flight s) (dialog s)
  | EPickImage p => mkSession (exec (handlePickImage_awaited p) w) (in_flight s) (dialog s)
  | ETapCancel => mkSession (exec pressCancel w) (in_flight s) (dialog s)
  | ETapSave now =>
      match handleSave now w with
      | (inr (Some task), w') => mkSession w' (in_flight s ++ [task]) (dialog s)
      | (_, w') => mkSession w' (in_flight s) (dialog s)
      end
  | ETapBack => mkSession (exec pressBack w) (in_flight s) (dialog s)
  | ETapBin =>
      match selectedRecipe w with
      | Some r =>
          mkSession (exec (Alert_alert "Delete" "Are you sure?") w) (in_flight s)
                    (Some (handleDelete_from w (id r)))
      | None => s
      end
  | EAnswer confirmed =>
      match dialog s with
      | Some task =>
          mkSession w (if confirmed then in_flight s ++ [task] else in_flight s) None
      | None => s
      end
  | ESettle k write_ok =>
      match in_flight s !! k with
      | Some task => mkSession (exec (task write_ok) w) (delete k (in_flight s)) (dialog s)
      | None => s
      end
  end.

(** A list of events, those not offered having no effect. *)
Definition run `{JSON} (es : list Event) (s : Session) : Session :=
  foldl (λ s e, if offered e s then step e s else s) s es.

(** An action of [perform] as the events it stands for. *)
Definition events_of (a : Action) : list Event :=
  match a with
  | TapAdd => [ETapAdd]
  | TapRecipe r => [ETapRecipe r]
  | Type_ i t => [EType i t]
  | TapCategory cat => [ETapCategory cat]
  | PickImage result => [EPickImage (PickerResolved result)]
  | TapCancel => [ETapCancel]
  | TapSave now write_ok => [ETapSave now; ESettle 0 write_ok]
  | TapBack => [ETapBack]
  | TapDelete confirmed write_ok => [ETapBin; EAnswer confirmed; ESettle 0 write_ok]
  end.

(** A store the typed collection is faithful to: no blob, a blob
    [JSON.parse] throws on, or the text of an array of recipes (what the
    application itself writes).  A blob that is JSON of another shape is
    put in [recipes] by the code as it is, and is outside [list Recipe]. *)
Definition typed_store `{JSON} (disk : gmap string string) : Prop :=
  match disk !! STORAGE_KEY with
  | None => True
  | Some j => JSON_parse j = None ∨ ∃ l, j = JSON_stringify l ∧ JSON_parse j = Some l
  end.

(** The session states reached from a launch over such a store, writes
    settling at any time, in any order. *)
Inductive session `{JSON} : Session → Prop :=
  | session_launch read_ok disk :
      typed_store disk → session (idle (launch read_ok disk))
  | session_step s e : session s → offered e s = true → session (step e s).

(** The same, when the user does nothing while a write is in flight. *)
Inductive serial `{JSON} : Session → Prop :=
  | serial_launch read_ok disk :
      typed_store disk → serial (idle (launch read_ok disk))
  | serial_step s e :
      serial s → offered e s = true →
      (is_settle e = false → in_flight s = []) →
      serial (step e s).

(** The tasks the handlers put in flight. *)
Definition known_task `{JSON} (t : Task) : Prop :=
  (∃ updated, t = save_task updated)
  ∨ (∃ updated selected i, t = handleDelete_rest updated selected i).

(** A task that ends on the list screen whatever the write does. *)
Definition ends_in_list (t : Task) : Prop :=
  ∀ write_ok w, view (exec (t write_ok) w) = LIST.

(** The world with its form emptied. *)
Definition forget_form (w : World) : World := exec (setForm Partial.empty) w.

(** Two session states that differ at most in the content of a form that is
    not on the screen. *)
Definition alike `{JSON} (s1 s2 : Session) : Prop :=
  in_flight s1 = in_flight s2
  ∧ dialog s1 = dialog s2
  ∧ Forall known_task (in_flight s1)
  ∧ (∀ t, dialog s1 = Some t → known_task t)
  ∧ (world s1 = world s2
     ∨ (view (world s1) ≠ ADD ∧ forget_form (world s1) = forget_form (world s2))).

(** Over an empty store: the pasta is saved, and a salad is saved before the
    write of the pasta has settled; the first write settles, the card of the
    pasta is tapped, the second write settles. *)
Definition overlapping_saves : list Event :=
  [ETapAdd; EType InTitle "Pasta"; EType InIngredients "eggs, flour";
   ETapSave 1700000000000;
   ETapAdd; EType InTitle "Salad"; EType InIngredients "lettuce";
   ETapSave 1700000060000;
   ESettle 0 true; ETapRecipe pasta; ESettle 0 true].

Definition s_overlap : Session :=
  run (H:=RefJSON.json) overlapping_saves (idle (launch (H:=RefJSON.json) true ∅)).

(** The detail screen of the pasta as a session reaches it: a launch over
    the store holding it, then a tap on its card. *)
Definition s_detail_pasta : Session :=
  run (H:=RefJSON.json) [ETapRecipe pasta] (idle (launch (H:=RefJSON.json) true pasta_disk)).

(** The add screen with the pasta draft typed in, the write of an earlier
    save still in flight. *)
Definition s_add_pasta : Session :=
  mkSession w_add_pasta [save_task (H:=RefJSON.json) [salad]] None.

(** ** The reference codec reads back what it writes *)

Module RefJSONFacts.
Import RefJSON.

Lemma app_String (c : ascii) (s t : string) : String c s +:+ t = String c (s +:+ t).
Proof. reflexivity. Qed.

Lemma app_assoc (s1 s2 s3 : string) : (s1 +:+ s2) +:+ s3 = s1 +:+ (s2 +:+ s3).
Proof. induction s1 as [|c s1 IH]; [done|]. by rewrite !app_String, IH. Qed.

Lemma app_length (s t : string) :
  String.length (s +:+ t) = String.length s + String.length t.
Proof. induction s as [|c s IH]; [done|]. rewrite app_String. cbn. by rewrite IH. Qed.

Lemma strip_app (p rest : string) : strip p (p +:+ rest) = Some rest.
Proof.
  induction p as [|c p IH]; [done|].
  rewrite app_String. cbn. by rewrite Ascii.eqb_refl.
Qed.

Lemma strip_app3 (a b c rest : string) :
  strip (a +:+ b +:+ c) (a +:+ b +:+ c +:+ rest) = Some rest.
Proof.
  replace (a +:+ b +:+ c +:+ rest) with ((a +:+ b +:+ c) +:+ rest)
    by (by rewrite !app_assoc).
  apply strip_app.
Qed.

Lemma unquote_body_escape (c : ascii) (t : string) :
  unquote_body (escape c +:+ t)
  = '(v, rest) ← unquote_body t; Some (String c v, rest).
Proof.
  destruct c as [[] [] [] [] [] [] [] []]; reflexivity.
Qed.

Lemma unquote_body_quote_body (s rest : string) :
  unquote_body (quote_body s +:+ String dquote rest) = Some (s, rest).
Proof.
  induction s as [|c s IH]; [done|].
  cbn [quote_body]. by rewrite app_assoc, unquote_body_escape, IH.
Qed.

Lemma unquote_quote (s rest : string) : unquote (quote s +:+ rest) = Some (s, rest).
Proof.
  unfold unquote, quote. rewrite app_String, app_assoc.
  cbn [strip]. rewrite Ascii.eqb_refl. cbn [mbind option_bind].
  apply unquote_body_quote_body.
Qed.

Lemma read_field_written (sep name v rest : string) :
  read_field sep name (sep +:+ quote name +:+ ":" +:+ quote v +:+ rest)
  = Some (v, rest).
Proof.
  unfold read_field.
  rewrite strip_app3. cbn [mbind option_bind]. apply unquote_quote.
Qed.

Lemma read_image_written (i : option string) (rest : string) :
  read_image (write_image i +:+ rest) = Some (i, rest).
Proof.
  unfold read_image. destruct i as [s|]; cbn [write_image].
  - assert (strip "null" (quote s +:+ rest) = None) as -> by reflexivity.
    by rewrite unquote_quote.
  - by rewrite strip_app.
Qed.

Lemma read_recipe_written (r : Recipe) (rest : string) :
  read_recipe (write_recipe r +:+ rest) = Some (r, rest).
Proof.
  unfold read_recipe, write_recipe. rewrite !app_assoc.
  rewrite !read_field_written. cbn [mbind option_bind].
  rewrite !read_field_written. cbn [mbind option_bind].
  rewrite strip_app3.
  cbn [mbind option_bind]. rewrite read_image_written. cbn [mbind option_bind].
  repeat (rewrite read_field_written; cbn [mbind option_bind]).
  rewrite strip_app. cbn [mbind option_bind]. by destruct r.
Qed.

Lemma read_more_written (fuel : nat) (l : list Recipe) :
  length l < fuel → read_more fuel (write_more l) = Some l.
Proof.
  revert fuel. induction l as [|r l IH]; intros [|fuel] Hlt; try (cbn in Hlt; lia).
  - reflexivity.
  - cbn [write_more read_more]. rewrite app_String. cbn [String.append].
    assert (String.append "" (write_recipe r +:+ write_more l)
            = write_recipe r +:+ write_more l) as -> by reflexivity.
    rewrite read_recipe_written. cbn [mbind option_bind].
    rewrite IH by (cbn in Hlt; lia). reflexivity.
Qed.

Lemma write_more_length (l : list Recipe) : length l < String.length (write_more l).
Proof.
  induction l as [|r l IH]; [cbn; lia|].
  cbn [write_more length]. rewrite !app_length. cbn [String.length]. lia.
Qed.

(** The law the launch after a create relies on, for every collection. *)
Lemma parse_stringify (l : list Recipe) : parse (stringify l) = Some l.
Proof.
  destruct l as [|r l]; [reflexivity|].
  unfold parse, stringify.
  assert (String.eqb ("[" +:+ write_recipe r +:+ write_more l) "[]" = false) as ->
    by reflexivity.
  rewrite strip_app. cbn [mbind option_bind].
  rewrite read_recipe_written. cbn [mbind option_bind].
  rewrite read_more_written; [done|].
  rewrite !app_length. pose proof (write_more_length l). cbn [String.length]. lia.
Qed.

End RefJSONFacts.

(** ** What each handler computes *)

Ltac js_unfold :=
  unfold launch, mount, pressDelete, handleSave_settled, settle, handleSave,
    handleDelete, saveRecipesToStorage, loadRecipes, JSON_parse_or_throw,
    openDetail, pressAdd, pressCancel, pressBack, onChangeText, handlePickImage,
    exec, try_catch_finally, try_catch, AsyncStorage_setItem, AsyncStorage_getItem,
    Alert_alert, console_error, setRecipes, setView, setSelectedRecipe,
    setLoading, setForm, useRecipes, useSelectedRecipe, useForm,
    mbind, mret, mthrow, Js_bind, Js_ret, Js_throw in *.

Lemma truthy_false (v : option string) : truthy v = false ↔ missing v.
Proof.
  unfold truthy, missing. destruct v as [s|].
  - rewrite negb_false_iff, String.eqb_eq. split.
    + intros ->. by right.
    + intros [?|[= ->]]; done.
  - split; [by left|done].
Qed.

Lemma truthy_true (v : option string) :
  truthy v = true ↔ ∃ s, v = Some s ∧ s ≠ "".
Proof.
  unfold truthy. destruct v as [s|].
  - rewrite negb_true_iff, String.eqb_neq. split.
    + intros Hs. by exists s.
    + intros (s' & [= <-] & Hs). done.
  - split; [done|]. intros (s & ? & _). done.
Qed.

Lemma draft_valid_or_invalid (f : Partial.t) :
  (truthy (Partial.title f) = true ∧ truthy (Partial.ingredients f) = true)
  ∨ (missing (Partial.title f) ∨ missing (Partial.ingredients f)).
Proof.
  rewrite <- !truthy_false.
  destruct (truthy (Partial.title f)), (truthy (Partial.ingredients f)); auto.
Qed.

Section Handlers.
Context `{JSON}.

Lemma saveRecipesToStorage_resolved (l : list Recipe) (w : World) :
  saveRecipesToStorage true l w =
    (inr (), mkWorld l (view w) (selectedRecipe w) (loading w) (form w)
               (<[STORAGE_KEY := JSON_stringify l]> (storage w))
               (alerts w) (console w)).
Proof. reflexivity. Qed.

Lemma saveRecipesToStorage_rejected (l : list Recipe) (w : World) :
  saveRecipesToStorage false l w =
    (inr (), mkWorld (recipes w) (view w) (selectedRecipe w) (loading w) (form w)
               (storage w)
               (alerts w ++ [("Error", "Failed to save recipe")])
               (console w ++ [StorageError])).
Proof. reflexivity. Qed.

Lemma handleSave_invalid (now : Z) (w : World) :
  missing (Partial.title (form w)) ∨ missing (Partial.ingredients (form w)) →
  handleSave now w =
    (inr None, mkWorld (recipes w) (view w) (selectedRecipe w) (loading w) (form w)
                 (storage w)
                 (alerts w ++ [("Missing Fields", "Title and Ingredients are required.")])
                 (console w)).
Proof.
  intros Hm. js_unfold.
  assert (negb (truthy (Partial.title (form w)))
          || negb (truthy (Partial.ingredients (form w))) = true) as ->; [|done].
  rewrite orb_true_iff, !negb_true_iff, !truthy_false. done.
Qed.

Lemma handleSave_valid (now : Z) (w : World) :
  truthy (Partial.title (form w)) = true →
  truthy (Partial.ingredients (form w)) = true →
  handleSave now w =
    (inr (Some (λ write_ok,
            saveRecipesToStorage write_ok (newRecipe now (form w) :: recipes w))),
     mkWorld (recipes w) LIST (selectedRecipe w) (loading w) Partial.empty
             (storage w) (alerts w) (console w)).
Proof. intros Ht Hi. unfold handleSave. js_unfold. rewrite Ht, Hi. done. Qed.

Lemma handleSave_settled_valid (now : Z) (write_ok : bool) (w : World) :
  truthy (Partial.title (form w)) = true →
  truthy (Partial.ingredients (form w)) = true →
  exec (handleSave_settled now write_ok) w =
    if write_ok then
      mkWorld (newRecipe now (form w) :: recipes w) LIST (selectedRecipe w)
              (loading w) Partial.empty
              (<[STORAGE_KEY := JSON_stringify (newRecipe now (form w) :: recipes w)]>
                 (storage w))
              (alerts w) (console w)
    else
      mkWorld (recipes w) LIST (selectedRecipe w) (loading w) Partial.empty
              (storage w)
              (alerts w ++ [("Error", "Failed to save recipe")])
              (console w ++ [StorageError]).
Proof.
  intros Ht Hi. unfold exec, handleSave_settled.
  unfold mbind at 1. unfold Js_bind. rewrite handleSave_valid by done.
  destruct write_ok; reflexivity.
Qed.

Lemma handleSave_settled_invalid (now : Z) (write_ok : bool) (w : World) :
  missing (Partial.title (form w)) ∨ missing (Partial.ingredients (form w)) →
  exec (handleSave_settled now write_ok) w =
    mkWorld (recipes w) (view w) (selectedRecipe w) (loading w) (form w)
            (storage w)
            (alerts w ++ [("Missing Fields", "Title and Ingredients are required.")])
            (console w).
Proof.
  intros Hm. unfold exec, handleSave_settled.
  unfold mbind at 1. unfold Js_bind. rewrite handleSave_invalid by done.
  reflexivity.
Qed.

Lemma handleDelete_exec (write_ok : bool) (i : string) (w : World) :
  exec (handleDelete write_ok i) w =
    let updated := filter (λ r, id r ≠ i) (recipes w) in
    let hit := bool_decide (id <$> selectedRecipe w = Some i) in
    mkWorld (if write_ok then updated else recipes w)
            (if hit then LIST else view w)
            (if hit then None else selectedRecipe w)
            (loading w) (form w)
            (if write_ok then <[STORAGE_KEY := JSON_stringify updated]> (storage w)
             else storage w)
            (if write_ok then alerts w
             else alerts w ++ [("Error", "Failed to save recipe")])
            (if write_ok then console w else console w ++ [StorageError]).
Proof.
  js_unfold. cbn.
  destruct write_ok, (bool_decide (id <$> selectedRecipe w = Some i)); reflexivity.
Qed.

End Handlers.

(** ** Failed writes *)

(** C1 (atomicity).  When the durable write is rejected during a create
    ([handleSave], run until its write settles) or a delete
    ([handleDelete]), the collection afterwards is the collection before the
    call, whatever the starting world, draft, clock reading or id; the stored
    blob is untouched as well, and the rejected delete is reported. *)
Theorem failed_write_leaves_list_unchanged `{JSON} (w : World) (now : Z) (i : string) :
  recipes (exec (handleSave_settled now false) w) = recipes w
  ∧ storage (exec (handleSave_settled now false) w) = storage w
  ∧ recipes (exec (handleDelete false i) w) = recipes w
  ∧ storage (exec (handleDelete false i) w) = storage w
  ∧ alerts (exec (handleDelete false i) w)
    = alerts w ++ [("Error", "Failed to save recipe")].
Proof.
  rewrite handleDelete_exec. cbn.
  destruct (draft_valid_or_invalid (form w)) as [[Ht Hi]|Hm].
  - rewrite handleSave_settled_valid by done. done.
  - rewrite handleSave_settled_invalid by done. done.
Qed.

(** ** Validation *)

(** C4 (validation).  A draft whose title, or ingredients, or both, are
    missing is refused: the handler starts no write, the only effect is the
    "Missing Fields" alert, the collection, the form, the store and the view
    are as before, so the add screen stays. *)
Theorem invalid_draft_is_rejected `{JSON} (w : World) (now : Z) (write_ok : bool) :
  missing (Partial.title (form w)) ∨ missing (Partial.ingredients (form w)) →
  (handleSave now w).1 = inr None
  ∧ let w' := exec (handleSave_settled now write_ok) w in
    alerts w' = alerts w ++ [("Missing Fields", "Title and Ingredients are required.")]
    ∧ recipes w' = recipes w
    ∧ view w' = view w
    ∧ form w' = form w
    ∧ selectedRecipe w' = selectedRecipe w
    ∧ storage w' = storage w
    ∧ (view w = ADD → view w' = ADD).
Proof.
  intros Hm. cbv zeta.
  rewrite handleSave_invalid, handleSave_settled_invalid by done. cbn.
  repeat split; done.
Qed.

Lemma invalid_draft_is_rejected_witness :
  recipes (exec (handleSave_settled (H:=RefJSON.json) 1700000000000 true) w_add_untitled) = []
  ∧ view (exec (handleSave_settled (H:=RefJSON.json) 1700000000000 true) w_add_untitled) = ADD.
Proof.
  destruct (invalid_draft_is_rejected (H:=RefJSON.json) w_add_untitled
              1700000000000 true) as (_ & _ & Hr & _ & _ & _ & _ & Hv).
  - left. left. reflexivity.
  - split; [exact Hr | apply Hv; reflexivity].
Defined.

(** ** Field defaults *)

(** C8 (defaults).  For a draft with a title and ingredients, the recipe
    that a create puts in the collection carries the draft's title and
    ingredients, has category "General" when the draft has none, a null
    image when the draft has none, and the empty string for each of
    servings, prepTime, cookTime, description and instructions that the
    draft leaves unset. *)
Theorem created_recipe_defaults `{JSON} (w : World) (now : Z) (t g : string) :
  Partial.title (form w) = Some t → t ≠ "" →
  Partial.ingredients (form w) = Some g → g ≠ "" →
  ∃ r, recipes (exec (handleSave_settled now true) w) = r :: recipes w
    ∧ title r = t
    ∧ ingredients r = g
    ∧ (Partial.category (form w) = None → category r = "General")
    ∧ (Partial.image (form w) = None → image r = None)
    ∧ (Partial.servings (form w) = None → servings r = "")
    ∧ (Partial.prepTime (form w) = None → prepTime r = "")
    ∧ (Partial.cookTime (form w) = None → cookTime r = "")
    ∧ (Partial.description (form w) = None → description r = "")
    ∧ (Partial.instructions (form w) = None → instructions r = "").
Proof.
  intros Ht Hne Hg Hge. exists (newRecipe now (form w)).
  rewrite handleSave_settled_valid
    by (apply truthy_true; eauto).
  apply String.eqb_neq in Hne, Hge.
  cbn. rewrite Ht, Hg. cbn. rewrite Hne, Hge.
  repeat split; by intros ->.
Qed.

Lemma created_recipe_defaults_witness :
  ∃ r, recipes (exec (handleSave_settled (H:=RefJSON.json) 1700000000000 true) w_add_pasta) = [r]
    ∧ category r = "General" ∧ image r = None ∧ servings r = "".
Proof.
  destruct (created_recipe_defaults (H:=RefJSON.json) w_add_pasta 1700000000000
              "Pasta" "eggs, flour")
    as (r & Hr & _ & _ & Hc & Hi & Hs & _); [reflexivity|done|reflexivity|done|].
  exists r. repeat split; [exact Hr | apply Hc | apply Hi | apply Hs]; reflexivity.
Defined.

(** C10 (save does not wait for the write).  For a draft with a title and
    ingredients, [handleSave] returns with the write still pending: at that
    point the form is already reset and the view is already LIST, while the
    collection and the store are as before.  When that pending write is then
    rejected, the user is on the list screen with the draft gone, the
    failure is reported, and the collection is the old one: the new recipe
    is not in it unless an equal recipe already was. *)
Theorem save_leaves_add_screen_before_write_settles `{JSON}
    (w : World) (now : Z) (t g : string) :
  Partial.title (form w) = Some t → t ≠ "" →
  Partial.ingredients (form w) = Some g → g ≠ "" →
  ∃ pending : Task,
    (handleSave now w).1 = inr (Some pending)
    ∧ let w1 := (handleSave now w).2 in
      form w1 = Partial.empty ∧ view w1 = LIST
      ∧ recipes w1 = recipes w ∧ storage w1 = storage w ∧ alerts w1 = alerts w
      ∧ let w2 := exec (pending false) w1 in
        w2 = exec (handleSave_settled now false) w
        ∧ form w2 = Partial.empty ∧ view w2 = LIST
        ∧ recipes w2 = recipes w ∧ storage w2 = storage w
        ∧ alerts w2 = alerts w ++ [("Error", "Failed to save recipe")]
        ∧ (newRecipe now (form w) ∉ recipes w → newRecipe now (form w) ∉ recipes w2).
Proof.
  intros Ht Hne Hg Hge.
  assert (truthy (Partial.title (form w)) = true) as Htt by (apply truthy_true; eauto).
  assert (truthy (Partial.ingredients (form w)) = true) as Hti by (apply truthy_true; eauto).
  eexists. rewrite handleSave_valid by done. split; [reflexivity|].
  cbv zeta. rewrite handleSave_settled_valid by done. cbn.
  repeat split; done.
Qed.

Lemma save_leaves_add_screen_before_write_settles_witness :
  view (exec (handleSave_settled (H:=RefJSON.json) 1700000000000 false) w_add_pasta) = LIST
  ∧ form (exec (handleSave_settled (H:=RefJSON.json) 1700000000000 false) w_add_pasta)
    = Partial.empty
  ∧ recipes (exec (handleSave_settled (H:=RefJSON.json) 1700000000000 false) w_add_pasta)
    = [].
Proof.
  destruct (save_leaves_add_screen_before_write_settles (H:=RefJSON.json) w_add_pasta
              1700000000000 "Pasta" "eggs, flour")
    as (pending & _ & _ & _ & _ & _ & _ & Heq & Hf & Hv & Hr & _);
    [reflexivity|done|reflexivity|done|].
  cbv zeta in Heq. rewrite <- Heq. repeat split; [exact Hv | exact Hf | exact Hr].
Defined.

(** ** The draft buffer *)

(** C5, as stated, fails: after "Cancel" on the add screen holding the pasta
    draft the view is LIST but the form still holds the draft. *)
Lemma cancel_does_not_reset_draft :
  view w_add_pasta = ADD
  ∧ view (exec pressCancel w_add_pasta) = LIST
  ∧ form (exec pressCancel w_add_pasta) = pasta_draft
  ∧ form (exec pressCancel w_add_pasta) ≠ Partial.empty.
Proof. repeat split. discriminate. Qed.

(** ** Launch *)

Section Launch.
Context `{JSON}.

Lemma launch_absent (disk : gmap string string) :
  disk !! STORAGE_KEY = None →
  launch true disk = mkWorld [] LIST None false Partial.empty disk [] [].
Proof. intros Hd. js_unfold. cbn [storage]. rewrite Hd. reflexivity. Qed.

Lemma launch_parsed (disk : gmap string string) (j : string) (l : list Recipe) :
  disk !! STORAGE_KEY = Some j → JSON_parse j = Some l →
  launch true disk = mkWorld l LIST None false Partial.empty disk [] [].
Proof. intros Hd Hp. js_unfold. cbn [storage]. rewrite Hd, Hp. reflexivity. Qed.

Lemma launch_malformed (disk : gmap string string) (j : string) :
  disk !! STORAGE_KEY = Some j → JSON_parse j = None →
  launch true disk =
    mkWorld [] LIST None false Partial.empty disk
            [("Error", "Failed to load recipes")] [SyntaxError].
Proof. intros Hd Hp. js_unfold. cbn [storage]. rewrite Hd, Hp. reflexivity. Qed.

Lemma launch_unreadable (disk : gmap string string) :
  launch false disk =
    mkWorld [] LIST None false Partial.empty disk
            [("Error", "Failed to load recipes")] [StorageError].
Proof. reflexivity. Qed.

Lemma launch_view (read_ok : bool) (disk : gmap string string) :
  view (launch read_ok disk) = LIST.
Proof.
  destruct read_ok; [|by rewrite launch_unreadable].
  destruct (disk !! STORAGE_KEY) as [j|] eqn:Hd; [|by rewrite launch_absent].
  destruct (JSON_parse j) as [l|] eqn:Hp.
  - by rewrite (launch_parsed _ _ _ Hd Hp).
  - by rewrite (launch_malformed _ _ Hd Hp).
Qed.

End Launch.

(** C7 (load).  When the store holds no blob under the key, the launch ends
    with the empty collection and reports nothing.  When it holds a blob
    that [JSON.parse] rejects, the failure is reported (console and "Failed
    to load recipes" alert), and the launch still ends: the collection is
    empty, the spinner is gone, the list screen is shown with its "+" button
    live, and the unreadable blob is left in the store. *)
Theorem launch_absent_or_malformed `{JSON} (disk : gmap string string) :
  (disk !! STORAGE_KEY = None →
   let w := launch true disk in
   recipes w = [] ∧ alerts w = [] ∧ console w = []
   ∧ loading w = false ∧ view w = LIST ∧ enabled TapAdd w)
  ∧ (∀ j, disk !! STORAGE_KEY = Some j → JSON_parse j = None →
     let w := launch true disk in
     recipes w = [] ∧ alerts w = [("Error", "Failed to load recipes")]
     ∧ console w = [SyntaxError]
     ∧ loading w = false ∧ view w = LIST ∧ enabled TapAdd w
     ∧ storage w = disk).
Proof.
  split.
  - intros Hd. cbv zeta. rewrite launch_absent by done. repeat split.
  - intros j Hd Hp. cbv zeta. rewrite (launch_malformed _ _ Hd Hp). repeat split.
Qed.

Lemma launch_absent_or_malformed_witness :
  recipes (launch (H:=RefJSON.json) true ∅) = []
  ∧ alerts (launch (H:=RefJSON.json) true ∅) = []
  ∧ recipes (launch (H:=RefJSON.json) true corrupt_disk) = []
  ∧ alerts (launch (H:=RefJSON.json) true corrupt_disk)
    = [("Error", "Failed to load recipes")]
  ∧ loading (launch (H:=RefJSON.json) true corrupt_disk) = false.
Proof.
  destruct (launch_absent_or_malformed (H:=RefJSON.json) ∅) as [Ha _].
  destruct (launch_absent_or_malformed (H:=RefJSON.json) corrupt_disk) as [_ Hm].
  destruct Ha as (Hr & Hal & _); [reflexivity|].
  destruct (Hm "[{") as (Hr' & Hal' & _ & Hl & _); [reflexivity|reflexivity|].
  repeat split; assumption.
Defined.

(** ** Create *)

(** C3 (create), for a write that succeeds.  For a draft with a title and
    ingredients, the create reports nothing, the new recipe (carrying the
    draft's title and ingredients and the clock reading as id) is the head
    of the collection, in front of the recipes that were there, and the
    view is LIST.  A later launch over the store the create left behind,
    with a codec that reads back the text it wrote for this collection,
    loads the same collection, the new recipe included. *)
Theorem create_prepends_and_persists `{JSON} (w : World) (now : Z) (t g : string) :
  Partial.title (form w) = Some t → t ≠ "" →
  Partial.ingredients (form w) = Some g → g ≠ "" →
  let r := newRecipe now (form w) in
  JSON_parse (JSON_stringify (r :: recipes w)) = Some (r :: recipes w) →
  let w' := exec (handleSave_settled now true) w in
  alerts w' = alerts w ∧ console w' = console w
  ∧ recipes w' = r :: recipes w
  ∧ head (recipes w') = Some r
  ∧ title r = t ∧ ingredients r = g ∧ id r = toString now
  ∧ view w' = LIST
  ∧ storage w' !! STORAGE_KEY = Some (JSON_stringify (r :: recipes w))
  ∧ let w'' := launch true (storage w') in
    recipes w'' = r :: recipes w ∧ r ∈ recipes w'' ∧ alerts w'' = [].
Proof.
  intros Ht Hne Hg Hge r Hrt. cbv zeta.
  rewrite handleSave_settled_valid by (apply truthy_true; eauto). cbn.
  rewrite lookup_insert_eq.
  rewrite (launch_parsed _ _ (r :: recipes w)) by (by rewrite ?lookup_insert_eq).
  apply String.eqb_neq in Hne, Hge.
  subst r. cbn. rewrite Ht, Hg. cbn. rewrite Hne, Hge.
  repeat split; try done. apply list_elem_of_here.
Qed.

Lemma create_prepends_and_persists_witness :
  recipes (exec (handleSave_settled (H:=RefJSON.json) 1700000000000 true) w_add_pasta)
    = [pasta]
  ∧ recipes (launch (H:=RefJSON.json) true
       (storage (exec (handleSave_settled (H:=RefJSON.json) 1700000000000 true)
                      w_add_pasta)))
    = [pasta].
Proof.
  destruct (create_prepends_and_persists (H:=RefJSON.json) w_add_pasta 1700000000000
              "Pasta" "eggs, flour")
    as (_ & _ & Hr & _ & _ & _ & _ & _ & _ & Hl & _);
    [reflexivity|done|reflexivity|done|vm_compute; reflexivity|].
  split; [exact Hr | exact Hl].
Defined.

(** ** Delete *)

Lemma filter_other_ids (i : string) (l : list Recipe) :
  i ∉ id <$> l → filter (λ r, id r ≠ i) l = l.
Proof.
  induction l as [|r l IH]; [done|].
  rewrite fmap_cons, not_elem_of_cons. intros [Hne Hl].
  rewrite filter_cons_True by done. by rewrite IH.
Qed.

(** C2, as the code has it.  For an id that matches no recipe,
    [handleDelete] reports no "not found" failure and leaves the collection
    as it is; it still issues the write: when the write succeeds the blob is
    overwritten with the text of the unchanged collection and nothing is
    reported, and when it is rejected the store is untouched and the write
    failure is reported. *)
Theorem delete_of_unknown_id `{JSON} (w : World) (i : string) (write_ok : bool) :
  i ∉ ids w →
  let w' := exec (handleDelete write_ok i) w in
  recipes w' = recipes w
  ∧ if write_ok then
      storage w' = <[STORAGE_KEY := JSON_stringify (recipes w)]> (storage w)
      ∧ alerts w' = alerts w ∧ console w' = console w
    else
      storage w' = storage w
      ∧ alerts w' = alerts w ++ [("Error", "Failed to save recipe")].
Proof.
  intros Hi. cbv zeta. rewrite handleDelete_exec. cbn.
  rewrite (filter_other_ids i (recipes w) Hi).
  destruct write_ok; repeat split.
Qed.

Lemma delete_of_unknown_id_witness :
  recipes (exec (handleDelete (H:=RefJSON.json) true "42") w_list_pasta) = [pasta]
  ∧ alerts (exec (handleDelete (H:=RefJSON.json) true "42") w_list_pasta) = [].
Proof.
  destruct (delete_of_unknown_id (H:=RefJSON.json) w_list_pasta "42" true)
    as (Hr & _ & Ha & _).
  - unfold ids. cbn. rewrite list_elem_of_singleton. discriminate.
  - split; [exact Hr | exact Ha].
Defined.

(** C2, as stated, fails: right after a launch over an empty store, deleting
    the id "42", which no recipe has, reports nothing at all and creates the
    blob in the store. *)
Lemma delete_of_unknown_id_writes_the_store :
  ("42" ∉ ids (launch (H:=RefJSON.json) true ∅))
  ∧ storage (launch (H:=RefJSON.json) true ∅) !! STORAGE_KEY = None
  ∧ storage (exec (handleDelete (H:=RefJSON.json) true "42")
                  (launch (H:=RefJSON.json) true ∅)) !! STORAGE_KEY = Some "[]"
  ∧ alerts (exec (handleDelete (H:=RefJSON.json) true "42")
                 (launch (H:=RefJSON.json) true ∅)) = []
  ∧ console (exec (handleDelete (H:=RefJSON.json) true "42")
                  (launch (H:=RefJSON.json) true ∅)) = [].
Proof.
  split; [|repeat split].
  unfold ids. cbn. apply not_elem_of_nil.
Qed.

(** ** The selected recipe *)

Section Selection.
Context `{JSON}.

Lemma pressDelete_exec (confirmed write_ok : bool) (w : World) :
  exec (pressDelete confirmed write_ok) w =
    match selectedRecipe w with
    | Some r =>
        let asked := exec (Alert_alert "Delete" "Are you sure?") w in
        if confirmed then exec (handleDelete write_ok (id r)) asked else asked
    | None => w
    end.
Proof.
  unfold pressDelete, exec. unfold mbind at 1. unfold Js_bind, useSelectedRecipe.
  destruct (selectedRecipe w) as [r|]; [destruct confirmed|]; reflexivity.
Qed.

Lemma handleDelete_selection_ok (write_ok : bool) (i : string) (w : World) :
  selection_ok w → selection_ok (exec (handleDelete write_ok i) w).
Proof.
  intros Hok. rewrite handleDelete_exec. unfold selection_ok. cbn.
  case_bool_decide as Hhit; [done|].
  intros Hv r Hs. specialize (Hok Hv r Hs).
  destruct write_ok; [|done].
  apply list_elem_of_filter. split; [|done].
  intros <-. apply Hhit. by rewrite Hs.
Qed.

End Selection.

(** ** Ids *)

Lemma toString_inj (a b : Z) : toString a = toString b → a = b.
Proof.
  unfold toString. intros Heq. apply DecimalZ.to_int_inj.
  assert (Some (Z.to_int a) = Some (Z.to_int b)) as [= ->]; [|done].
  by rewrite <- !NilEmpty.isi, Heq.
Qed.

#[local] Instance toString_Inj : Inj (=) (=) toString.
Proof. intros a b. apply toString_inj. Qed.

Section Ids.
Context `{JSON}.

Lemma create_ids (c : Creation) (w : World) :
  ids (create c w) = if accepted c then toString (c_now c) :: ids w else ids w.
Proof.
  unfold create, accepted, ids.
  set (w1 := exec (setForm (c_draft c)) (exec pressAdd w)).
  change (recipes w) with (recipes w1). change (c_draft c) with (form w1).
  destruct (draft_valid_or_invalid (form w1)) as [[Ht Hi]|Hm].
  - rewrite handleSave_settled_valid, Ht, Hi by done. by destruct (c_write_ok c).
  - rewrite handleSave_settled_invalid by done.
    assert (truthy (Partial.title (form w1)) && truthy (Partial.ingredients (form w1))
            = false) as ->; [|done].
    rewrite andb_false_iff, !truthy_false. done.
Qed.

Lemma create_ids_elem (c : Creation) (w : World) (i : string) :
  i ∈ ids (create c w) → i = toString (c_now c) ∨ i ∈ ids w.
Proof.
  rewrite create_ids. destruct (accepted c); [|by right].
  rewrite elem_of_cons. done.
Qed.

Lemma creates_ids_NoDup (cs : list Creation) (w : World) :
  NoDup (ids w) →
  NoDup (c_now <$> cs) →
  (∀ c, c ∈ cs → toString (c_now c) ∉ ids w) →
  NoDup (ids (creates cs w)).
Proof.
  revert w. induction cs as [|c cs IH]; intros w Hw Hcs Hfresh; [done|].
  cbn [creates foldl]. rewrite fmap_cons, NoDup_cons in Hcs. destruct Hcs as [Hc Hcs].
  apply IH; [|done|].
  - rewrite create_ids. destruct (accepted c); [|done].
    apply NoDup_cons. split; [|done]. apply Hfresh, list_elem_of_here.
  - intros c' Hc' Hin. apply create_ids_elem in Hin as [Heq|Hin].
    + apply toString_inj in Heq. apply Hc. rewrite <- Heq.
      by apply list_elem_of_fmap_2.
    + by apply (Hfresh c'); [apply list_elem_of_further|].
Qed.

End Ids.

(** C9, as the code has it.  An id is the decimal text of the clock reading
    at creation.  For a sequence of creations whose clock readings are
    pairwise distinct and none of which reads a value whose text is already
    an id of the collection, the ids assigned are pairwise distinct and, if
    the ids of the collection were distinct before, they are distinct
    after, whichever of the creations are refused or lose their write. *)
Theorem ids_distinct_for_distinct_clock_readings `{JSON}
    (cs : list Creation) (w : World) :
  NoDup (ids w) →
  NoDup (c_now <$> cs) →
  (∀ c, c ∈ cs → toString (c_now c) ∉ ids w) →
  NoDup (toString <$> (c_now <$> cs))
  ∧ NoDup (ids (creates cs w)).
Proof.
  intros Hw Hcs Hfresh. split.
  - by apply (NoDup_fmap_2 toString).
  - by apply creates_ids_NoDup.
Qed.

Lemma ids_distinct_for_distinct_clock_readings_witness :
  ids (creates (H:=RefJSON.json) a_minute_apart (launch (H:=RefJSON.json) true ∅))
    = ["1700000060000"; "1700000000000"]
  ∧ NoDup (ids (creates (H:=RefJSON.json) a_minute_apart
                        (launch (H:=RefJSON.json) true ∅))).
Proof.
  split; [reflexivity|].
  apply (ids_distinct_for_distinct_clock_readings (H:=RefJSON.json)
           a_minute_apart (launch (H:=RefJSON.json) true ∅)).
  - apply NoDup_nil_2.
  - cbn. apply NoDup_cons. split.
    + rewrite list_elem_of_singleton. discriminate.
    + apply NoDup_singleton.
  - intros c _. apply not_elem_of_nil.
Defined.

(** C9, as stated, fails: two creations for which [Date.now()] reads the
    same millisecond put two recipes with the same id in the collection. *)
Lemma same_clock_reading_same_id :
  ids (creates (H:=RefJSON.json) same_instant (launch (H:=RefJSON.json) true ∅))
    = ["1700000000000"; "1700000000000"]
  ∧ ¬ NoDup (ids (creates (H:=RefJSON.json) same_instant
                          (launch (H:=RefJSON.json) true ∅))).
Proof.
  split; [reflexivity|].
  intros Hnd. vm_compute in Hnd. apply NoDup_cons_1_1 in Hnd.
  apply Hnd, list_elem_of_here.
Qed.

(** ** A session, end to end *)

(** Over an empty store: launch, "+", type the title and the ingredients,
    save; the list holds the pasta with category "General".  Open it and
    confirm the delete: the list is empty again, the view is LIST, and a new
    launch over the store finds no recipe. *)
Example pasta_session :
  let j := RefJSON.json in
  let w1 := exec (perform (H:=j) (TapSave 1700000000000 true))
              (exec (perform (H:=j) (Type_ InIngredients "eggs, flour"))
                 (exec (perform (H:=j) (Type_ InTitle "Pasta"))
                    (exec (perform (H:=j) TapAdd) (launch (H:=j) true ∅)))) in
  let w2 := exec (perform (H:=j) (TapDelete true true))
              (exec (perform (H:=j) (TapRecipe pasta)) w1) in
  recipes w1 = [pasta] ∧ view w1 = LIST
  ∧ recipes w2 = [] ∧ view w2 = LIST ∧ selectedRecipe w2 = None
  ∧ recipes (launch (H:=j) true (storage w2)) = [].
Proof. vm_compute. repeat split. Qed.

(** ** More on delete *)

(** A delete whose write succeeds keeps exactly the recipes with another id,
    in their order: no recipe with the id is left (all of them go when
    several share it), the others all stay, and the blob is the text of the
    new collection. *)
Theorem delete_removes_exactly_the_id `{JSON} (w : World) (i : string) :
  let w' := exec (handleDelete true i) w in
  (∀ r, r ∈ recipes w' ↔ r ∈ recipes w ∧ id r ≠ i)
  ∧ (i ∉ ids w')
  ∧ sublist (recipes w') (recipes w)
  ∧ storage w' !! STORAGE_KEY = Some (JSON_stringify (recipes w')).
Proof.
  cbv zeta. rewrite handleDelete_exec. cbn. split; [|split; [|split]].
  - intros r. rewrite list_elem_of_filter. tauto.
  - unfold ids. cbn. intros (r & Hr & Hin)%list_elem_of_fmap.
    apply list_elem_of_filter in Hin as [Hne _]. by apply Hne.
  - apply sublist_filter.
  - apply lookup_insert_eq.
Qed.

Lemma filter_one_id (i : string) (l : list Recipe) :
  NoDup (id <$> l) → i ∈ id <$> l →
  S (length (filter (λ r, id r ≠ i) l)) = length l.
Proof.
  induction l as [|r l IH]; [by intros _ ?%elem_of_nil|].
  rewrite fmap_cons, NoDup_cons, elem_of_cons. intros [Hr Hnd] Hin.
  destruct (decide (id r = i)) as [Heq|Hne].
  - rewrite filter_cons_False by (by intros ?).
    rewrite filter_other_ids by (by rewrite <- Heq). done.
  - rewrite filter_cons_True by done. cbn.
    destruct Hin as [->|Hin]; [done|]. by rewrite IH.
Qed.

(** When the ids of the collection are distinct, a successful delete of an
    id of the collection removes exactly one recipe. *)
Theorem delete_of_unique_id_removes_one `{JSON} (w : World) (i : string) :
  NoDup (ids w) → i ∈ ids w →
  S (length (recipes (exec (handleDelete true i) w))) = length (recipes w).
Proof.
  intros Hnd Hin. rewrite handleDelete_exec. cbn. by apply filter_one_id.
Qed.

Lemma delete_of_unique_id_removes_one_witness :
  recipes (exec (handleDelete (H:=RefJSON.json) true "1700000060000") w_detail_two)
    = [pasta]
  ∧ S (length (recipes (exec (handleDelete (H:=RefJSON.json) true "1700000060000")
                             w_detail_two))) = 2.
Proof.
  split; [reflexivity|].
  apply (delete_of_unique_id_removes_one (H:=RefJSON.json) w_detail_two "1700000060000").
  - unfold ids. cbn. apply NoDup_cons. split.
    + rewrite list_elem_of_singleton. discriminate.
    + apply NoDup_singleton.
  - unfold ids. cbn. apply list_elem_of_here.
Defined.

(** A create whose id is new to the collection, followed by the delete of
    that id, gives back the collection as it was (both writes succeeding). *)
Theorem create_then_delete_restores_collection `{JSON}
    (w : World) (now : Z) (t g : string) :
  Partial.title (form w) = Some t → t ≠ "" →
  Partial.ingredients (form w) = Some g → g ≠ "" →
  toString now ∉ ids w →
  recipes (exec (handleDelete true (toString now))
                (exec (handleSave_settled now true) w)) = recipes w.
Proof.
  intros Ht Hne Hg Hge Hfresh.
  rewrite handleDelete_exec. cbv zeta. cbn [recipes].
  rewrite handleSave_settled_valid by (apply truthy_true; eauto). cbn [recipes].
  rewrite filter_cons_False by (by intros ?). by apply filter_other_ids.
Qed.

Lemma create_then_delete_restores_collection_witness :
  recipes (exec (handleDelete (H:=RefJSON.json) true "1700000000000")
                (exec (handleSave_settled (H:=RefJSON.json) 1700000000000 true)
                      w_add_pasta)) = [].
Proof.
  apply (create_then_delete_restores_collection (H:=RefJSON.json) w_add_pasta
           1700000000000 "Pasta" "eggs, flour");
    [reflexivity|done|reflexivity|done|].
  unfold ids. cbn. apply not_elem_of_nil.
Defined.

(** Deleting an id a second time changes nothing in the collection. *)
Theorem delete_twice_is_delete_once `{JSON} (w : World) (i : string) (write_ok : bool) :
  recipes (exec (handleDelete write_ok i) (exec (handleDelete true i) w))
  = recipes (exec (handleDelete true i) w).
Proof.
  rewrite !handleDelete_exec. cbn. destruct write_ok; [|done].
  apply filter_other_ids.
  intros (r & Hr & Hin)%list_elem_of_fmap.
  apply list_elem_of_filter in Hin as [Hne _]. by apply Hne.
Qed.

(** ** More on launch and the store *)

(** Every launch ends: the spinner is off, the list screen is up, nothing is
    selected, the form is empty and the store is as it was found.  The
    collection is what the blob parses to when the read is served and the
    blob is there and parses, and empty otherwise; one load failure is
    reported exactly when the read is rejected or the blob does not parse. *)
Theorem launch_outcome `{JSON} (read_ok : bool) (disk : gmap string string) :
  let w := launch read_ok disk in
  let loaded := if read_ok then disk !! STORAGE_KEY ≫= JSON_parse else None in
  let failed :=
    negb read_ok
    || match disk !! STORAGE_KEY with
       | Some j => match JSON_parse j with Some _ => false | None => true end
       | None => false
       end in
  loading w = false ∧ view w = LIST ∧ selectedRecipe w = None
  ∧ form w = Partial.empty ∧ storage w = disk
  ∧ recipes w = default [] loaded
  ∧ alerts w = (if failed then [("Error", "Failed to load recipes")] else []).
Proof.
  cbv zeta. destruct read_ok; [|by rewrite launch_unreadable].
  destruct (disk !! STORAGE_KEY) as [j|] eqn:Hd.
  - destruct (JSON_parse j) as [l|] eqn:Hp.
    + rewrite (launch_parsed _ _ _ Hd Hp). cbn. by rewrite Hp.
    + rewrite (launch_malformed _ _ Hd Hp). cbn. by rewrite Hp.
  - by rewrite launch_absent.
Qed.

Section Store.
Context `{JSON}.

Lemma perform_cases (P : World → Prop) (a : Action) (w : World) :
  (∀ v s f al, P (mkWorld (recipes w) v s (loading w) f (storage w)
                          (alerts w ++ al) (console w))) →
  (∀ l v s f al co,
     (∃ now, a = TapSave now true ∧ l = newRecipe now (form w) :: recipes w
             ∧ truthy (Partial.title (form w)) = true
             ∧ truthy (Partial.ingredients (form w)) = true)
     ∨ (∃ r, a = TapDelete true true ∧ selectedRecipe w = Some r
             ∧ l = filter (λ r', id r' ≠ id r) (recipes w)) →
     P (mkWorld l v s (loading w) f (<[STORAGE_KEY := JSON_stringify l]> (storage w))
                (alerts w ++ al) (console w ++ co))) →
  (∀ v s f al co,
     P (mkWorld (recipes w) v s (loading w) f (storage w)
                (alerts w ++ al) (console w ++ co))) →
  P (exec (perform a) w).
Proof.
  intros Hframe Hwrite Hfail.
  assert (∀ v s f, P (mkWorld (recipes w) v s (loading w) f (storage w)
                              (alerts w) (console w))) as Hquiet.
  { intros v s f. specialize (Hframe v s f []). by rewrite app_nil_r in Hframe. }
  destruct a; cbn [perform].
  - apply Hquiet.
  - apply Hquiet.
  - apply Hquiet.
  - apply Hquiet.
  - destruct result; [apply Hquiet|]. destruct w. apply Hquiet.
  - apply Hquiet.
  - destruct (draft_valid_or_invalid (form w)) as [[Ht Hi]|Hm].
    + rewrite handleSave_settled_valid by done. destruct write_ok.
      * specialize (Hwrite (newRecipe now (form w) :: recipes w) LIST
                           (selectedRecipe w) Partial.empty [] []).
        rewrite !app_nil_r in Hwrite. apply Hwrite. left. eauto.
      * apply Hfail.
    + rewrite handleSave_settled_invalid by done. apply Hframe.
  - apply Hquiet.
  - rewrite pressDelete_exec. destruct (selectedRecipe w) as [r|] eqn:Hs;
      [|destruct w; apply Hquiet].
    cbv zeta. destruct confirmed; [|apply Hframe].
    rewrite handleDelete_exec. cbn. destruct write_ok.
    + specialize (Hwrite (filter (λ r', id r' ≠ id r) (recipes w))
                         (if bool_decide (id <$> selectedRecipe w = Some (id r))
                          then LIST else view w)
                         (if bool_decide (id <$> selectedRecipe w = Some (id r))
                          then None else selectedRecipe w)
                         (form w) [("Delete", "Are you sure?")] []).
      rewrite !app_nil_r in Hwrite. apply Hwrite. right. eauto.
    + rewrite <- app_assoc. apply Hfail.
Qed.

End Store.

(** Only a save and a confirmed delete, and only when their write succeeds,
    change the collection or the store; every other action, a refused save,
    a declined delete and a rejected write leave both as they are. *)
Theorem only_save_and_delete_touch_collection `{JSON} (a : Action) (w : World) :
  recipes (exec (perform a) w) ≠ recipes w ∨ storage (exec (perform a) w) ≠ storage w →
  (∃ now, a = TapSave now true) ∨ a = TapDelete true true.
Proof.
  apply (perform_cases (λ w', recipes w' ≠ recipes w ∨ storage w' ≠ storage w →
                              (∃ now, a = TapSave now true) ∨ a = TapDelete true true)).
  - intros v s f al [?|?]; done.
  - intros l v s f al co [(now & -> & _)|(r & -> & _)] _; eauto.
  - intros v s f al co [?|?]; done.
Qed.

Lemma only_save_and_delete_touch_collection_witness :
  (∃ now, TapSave 1700000000000 true = TapSave now true)
  ∨ TapSave 1700000000000 true = TapDelete true true.
Proof.
  apply (only_save_and_delete_touch_collection (H:=RefJSON.json)
           (TapSave 1700000000000 true) w_add_pasta).
  left. discriminate.
Defined.

(** Once the blob is the text of the collection, it stays so through every
    action, whatever the platform answers; and a save or a delete whose
    write succeeds makes it so. *)
Theorem store_follows_collection `{JSON} (a : Action) (w : World) :
  (synced w → synced (exec (perform a) w))
  ∧ (∀ l, synced (exec (saveRecipesToStorage true l) w)).
Proof.
  split; [|intros l; apply lookup_insert_eq].
  intros Hs. apply (perform_cases synced).
  - intros; exact Hs.
  - intros; apply lookup_insert_eq.
  - intros; exact Hs.
Qed.

(** A launch over the store of a synced world, with a codec that reads back
    the text of that collection, loads the collection as it was, in the
    same order, and reports nothing. *)
Theorem relaunch_restores_collection `{JSON} (w : World) :
  synced w →
  JSON_parse (JSON_stringify (recipes w)) = Some (recipes w) →
  recipes (launch true (storage w)) = recipes w
  ∧ alerts (launch true (storage w)) = [].
Proof.
  intros Hs Hrt. by rewrite (launch_parsed _ _ _ Hs Hrt).
Qed.

Lemma relaunch_restores_collection_witness :
  recipes (launch (H:=RefJSON.json) true (storage w_list_pasta)) = [pasta]
  ∧ alerts (launch (H:=RefJSON.json) true (storage w_list_pasta)) = [].
Proof.
  apply (relaunch_restores_collection (H:=RefJSON.json) w_list_pasta);
    vm_compute; reflexivity.
Defined.

(** No action and no launch touches another key of the store. *)
Theorem other_keys_untouched `{JSON} (a : Action) (w : World)
    (read_ok : bool) (disk : gmap string string) (k : string) :
  k ≠ STORAGE_KEY →
  storage (exec (perform a) w) !! k = storage w !! k
  ∧ storage (launch read_ok disk) !! k = disk !! k.
Proof.
  intros Hk. split.
  - apply (perform_cases (λ w', storage w' !! k = storage w !! k)); intros; try done.
    by apply lookup_insert_ne.
  - by destruct (launch_outcome read_ok disk) as (_ & _ & _ & _ & -> & _).
Qed.

Lemma other_keys_untouched_witness :
  storage (exec (perform (H:=RefJSON.json) (TapSave 1700000000000 true)) w_add_pasta)
    !! "@settings" = None.
Proof.
  destruct (other_keys_untouched (H:=RefJSON.json) (TapSave 1700000000000 true)
              w_add_pasta true ∅ "@settings") as [Hk _]; [discriminate|].
  rewrite Hk. reflexivity.
Defined.

(** The bin of the detail screen.  A declined confirmation changes nothing
    but the log of dialogs.  A confirmed delete whose write is rejected
    still leaves the detail screen (view LIST, selection cleared) while the
    recipe stays in the collection and the store; the failure is reported. *)
Theorem bin_declined_or_write_rejected `{JSON} (w : World) (r : Recipe) (write_ok : bool) :
  selectedRecipe w = Some r →
  (let w' := exec (pressDelete false write_ok) w in
   recipes w' = recipes w ∧ view w' = view w ∧ selectedRecipe w' = Some r
   ∧ form w' = form w ∧ storage w' = storage w ∧ render w' = render w)
  ∧ (let w' := exec (pressDelete true false) w in
     recipes w' = recipes w ∧ storage w' = storage w
     ∧ view w' = LIST ∧ selectedRecipe w' = None
     ∧ alerts w' = alerts w ++ [("Delete", "Are you sure?");
                                ("Error", "Failed to save recipe")]).
Proof.
  intros Hs. cbv zeta. rewrite !pressDelete_exec, Hs. cbv zeta.
  rewrite handleDelete_exec. cbn. rewrite Hs. cbn.
  rewrite bool_decide_eq_true_2 by done. rewrite <- app_assoc.
  repeat split. unfold render, renderList, renderAdd, renderDetail. cbn. by rewrite Hs.
Qed.

Lemma bin_declined_or_write_rejected_witness :
  view (exec (pressDelete (H:=RefJSON.json) true false) w_detail_two) = LIST
  ∧ recipes (exec (pressDelete (H:=RefJSON.json) true false) w_detail_two)
    = [salad; pasta].
Proof.
  destruct (bin_declined_or_write_rejected (H:=RefJSON.json) w_detail_two salad true)
    as [_ (Hr & _ & Hv & _)]; [reflexivity|].
  split; [exact Hv | exact Hr].
Defined.

(** ** More on create *)

(** Two recipes built by [handleSave] have the same id exactly when the
    clock read the same value at their creation. *)
Theorem same_id_iff_same_clock_reading (n1 n2 : Z) (f1 f2 : Partial.t) :
  id (newRecipe n1 f1) = id (newRecipe n2 f2) ↔ n1 = n2.
Proof. cbn. split; [apply toString_inj | by intros ->]. Qed.

Lemma or_string_filled (v : option string) (d s : string) :
  v = Some s → s ≠ "" → or_string v d = s.
Proof. intros -> Hs. cbn. by apply String.eqb_neq in Hs as ->. Qed.

(** Every field of the draft that holds a non-empty text is copied as it is
    into the recipe, the picture included; a field holding the empty string
    is treated as unset (so an empty category becomes "General" and an empty
    picture uri becomes null). *)
Theorem filled_fields_are_copied (now : Z) (f : Partial.t) :
  let r := newRecipe now f in
  (∀ s, s ≠ "" →
     (Partial.title f = Some s → title r = s)
     ∧ (Partial.category f = Some s → category r = s)
     ∧ (Partial.servings f = Some s → servings r = s)
     ∧ (Partial.prepTime f = Some s → prepTime r = s)
     ∧ (Partial.cookTime f = Some s → cookTime r = s)
     ∧ (Partial.description f = Some s → description r = s)
     ∧ (Partial.ingredients f = Some s → ingredients r = s)
     ∧ (Partial.instructions f = Some s → instructions r = s)
     ∧ (Partial.image f = Some (Some s) → image r = Some s))
  ∧ (Partial.category f = Some "" → category r = "General")
  ∧ (Partial.image f = Some (Some "") → image r = None)
  ∧ (Partial.image f = Some None → image r = None)
  ∧ (Partial.servings f = Some "" → servings r = "").
Proof.
  cbv zeta. split; [|by repeat apply conj; intros Hf; cbn; rewrite Hf].
  intros s Hs. apply String.eqb_neq in Hs.
  repeat apply conj; intros Hf; cbn; rewrite Hf; cbn; by rewrite Hs.
Qed.

Lemma newRecipe_well_formed (now : Z) (f : Partial.t) :
  truthy (Partial.title f) = true → truthy (Partial.ingredients f) = true →
  well_formed (newRecipe now f).
Proof.
  intros (t & Ht & Hne)%truthy_true (g & Hg & Hge)%truthy_true.
  unfold well_formed. cbn. rewrite Ht, Hg. cbn.
  apply String.eqb_neq in Hne as Hne', Hge as Hge'. rewrite Hne', Hge'.
  repeat split; [done..|].
  destruct (Partial.category f) as [c|]; cbn; [|done].
  destruct (String.eqb_spec c ""); done.
Qed.

(** Title, ingredients and category are non-empty in every recipe the
    application creates: if all recipes of the collection have them
    non-empty, so have all recipes after any action. *)
Theorem recipes_stay_well_formed `{JSON} (a : Action) (w : World) :
  Forall well_formed (recipes w) →
  Forall well_formed (recipes (exec (perform a) w)).
Proof.
  intros Hwf. apply (perform_cases (λ w', Forall well_formed (recipes w'))).
  - intros; exact Hwf.
  - intros l v s f al co [(now & _ & -> & Ht & Hi)|(r & _ & _ & ->)]; cbn.
    + apply Forall_cons. split; [by apply newRecipe_well_formed|done].
    + rewrite Forall_forall in Hwf. apply Forall_forall.
      intros r' [_ Hin]%list_elem_of_filter. by apply Hwf.
  - intros; exact Hwf.
Qed.

Lemma recipes_stay_well_formed_witness :
  Forall well_formed
    (recipes (exec (perform (H:=RefJSON.json) (TapSave 1700000000000 true)) w_add_pasta)).
Proof.
  apply (recipes_stay_well_formed (H:=RefJSON.json) (TapSave 1700000000000 true)
           w_add_pasta).
  apply Forall_nil_2.
Defined.

Lemma create_recipes `{JSON} (c : Creation) (w : World) :
  recipes (create c w)
  = if accepted c then newRecipe (c_now c) (c_draft c) :: recipes w else recipes w.
Proof.
  unfold create, accepted.
  set (w1 := exec (setForm (c_draft c)) (exec pressAdd w)).
  change (recipes w) with (recipes w1). change (c_draft c) with (form w1).
  destruct (draft_valid_or_invalid (form w1)) as [[Ht Hi]|Hm].
  - rewrite handleSave_settled_valid, Ht, Hi by done. by destruct (c_write_ok c).
  - rewrite handleSave_settled_invalid by done.
    assert (truthy (Partial.title (form w1)) && truthy (Partial.ingredients (form w1))
            = false) as ->; [|done].
    rewrite andb_false_iff, !truthy_false. done.
Qed.

(** The collection is in creation order, newest first: after a sequence of
    creations it is the recipes of the accepted ones (valid draft, write not
    rejected), the last created in front, followed by the recipes that were
    there, untouched. *)
Theorem creations_prepend_newest_first `{JSON} (cs : list Creation) (w : World) :
  recipes (creates cs w)
  = reverse ((λ c, newRecipe (c_now c) (c_draft c)) <$> filter (λ c, accepted c = true) cs)
    ++ recipes w.
Proof.
  revert w. induction cs as [|c cs IH]; intros w; [done|].
  cbn [creates foldl]. fold (creates cs (create c w)). rewrite IH, create_recipes.
  destruct (accepted c) eqn:Hc.
  - rewrite filter_cons_True by done. rewrite fmap_cons, reverse_cons.
    by rewrite <- app_assoc.
  - rewrite filter_cons_False; [done|]. by rewrite Hc.
Qed.

(** ** What the screens show *)

(** After a save on a loaded application, the list screen is shown.  When
    the write succeeds its first card is the one of the new recipe (key the
    clock reading, the draft's title, "-" where no time was given), in front
    of the cards that were there; when the write is rejected the list shows
    what it showed before. *)
Theorem saved_recipe_heads_the_list_screen `{JSON}
    (w : World) (now : Z) (t g : string) :
  loading w = false →
  Partial.title (form w) = Some t → t ≠ "" →
  Partial.ingredients (form w) = Some g → g ≠ "" →
  (∃ c, render (exec (handleSave_settled now true) w)
        = ListScreen (Cards (c :: (card <$> recipes w)))
      ∧ card_key c = toString now ∧ card_title c = t
      ∧ (Partial.prepTime (form w) = None → card_prep c = "-")
      ∧ (Partial.cookTime (form w) = None → card_cook c = "-")
      ∧ (Partial.image (form w) = None → card_image c = None))
  ∧ render (exec (handleSave_settled now false) w) = ListScreen (renderList w).
Proof.
  intros Hl Ht Hne Hg Hge.
  rewrite !handleSave_settled_valid by (apply truthy_true; eauto).
  unfold render, renderList. cbn. rewrite Hl. split; [|done].
  exists (card (newRecipe now (form w))). split; [done|].
  apply String.eqb_neq in Hne. cbn. rewrite Ht. cbn. rewrite Hne.
  repeat apply conj; try done; by intros ->.
Qed.

Lemma saved_recipe_heads_the_list_screen_witness :
  render (exec (handleSave_settled (H:=RefJSON.json) 1700000000000 true) w_add_pasta)
  = ListScreen (Cards [mkCard "1700000000000" None "Pasta" "General" "-" "-"]).
Proof.
  destruct (saved_recipe_heads_the_list_screen (H:=RefJSON.json) w_add_pasta
              1700000000000 "Pasta" "eggs, flour")
    as [(c & Hr & _) _]; [reflexivity|reflexivity|done|reflexivity|done|].
  reflexivity.
Defined.

Lemma CATEGORIES_cases (P : string → Prop) (cat : string) :
  cat ∈ CATEGORIES →
  P "Breakfast" → P "Lunch" → P "Dinner" → P "Snack" → P "Dessert" → P cat.
Proof.
  unfold CATEGORIES. rewrite !elem_of_cons, elem_of_nil.
  intros [->|[->|[->|[->|[->|[]]]]]]; auto.
Qed.

(** Tapping a category chip draws that chip, and no other, selected, and
    leaves the text inputs and the photo as they are; a recipe saved from
    that form has the tapped category.  A fresh form ("+") has no chip
    selected. *)
Theorem tapped_chip_is_the_category `{JSON} (w : World) (cat : string) (now : Z) :
  cat ∈ CATEGORIES →
  let w' := exec (perform (TapCategory cat)) w in
  selected_chips (renderAdd w') = [cat]
  ∧ (∀ i, shown_input i (renderAdd w') = shown_input i (renderAdd w))
  ∧ add_photo (renderAdd w') = add_photo (renderAdd w)
  ∧ category (newRecipe now (form w')) = cat
  ∧ selected_chips (renderAdd (exec pressAdd w)) = [].
Proof.
  intros Hcat. cbv zeta. split; [|split; [|split; [|split]]].
  - pattern cat. apply (CATEGORIES_cases _ cat Hcat); reflexivity.
  - by intros [].
  - done.
  - pattern cat. apply (CATEGORIES_cases _ cat Hcat); reflexivity.
  - reflexivity.
Qed.

Lemma tapped_chip_is_the_category_witness :
  selected_chips (renderAdd (exec (perform (H:=RefJSON.json) (TapCategory "Dinner"))
                                  w_add_pasta)) = ["Dinner"].
Proof.
  destruct (tapped_chip_is_the_category (H:=RefJSON.json) w_add_pasta "Dinner" 0)
    as [Hc _]; [|exact Hc].
  unfold CATEGORIES. do 2 apply list_elem_of_further. apply list_elem_of_here.
Defined.

(** Typing in an input of the add screen: that input shows the typed text,
    the last one when typed twice; the other inputs, the chips and the photo
    show what they showed, and the view stays. *)
Theorem typed_text_is_shown `{JSON} (w : World) (i : Input) (t t' : string) :
  let w' := exec (perform (Type_ i t)) w in
  shown_input i (renderAdd w') = Some t
  ∧ (∀ j, j ≠ i → shown_input j (renderAdd w') = shown_input j (renderAdd w))
  ∧ selected_chips (renderAdd w') = selected_chips (renderAdd w)
  ∧ add_photo (renderAdd w') = add_photo (renderAdd w)
  ∧ view w' = view w
  ∧ shown_input i (renderAdd (exec (perform (Type_ i t')) w')) = Some t'.
Proof.
  cbv zeta. split; [|split; [|split; [|split; [|split]]]].
  - by destruct i.
  - intros j Hj. by destruct i, j.
  - by destruct i.
  - by destruct i.
  - by destruct i.
  - by destruct i.
Qed.

(** Picking a photo: a picked uri is shown in the photo box and becomes the
    picture of the recipe then saved, the inputs keeping their text; a
    cancelled picker leaves the world as it is. *)
Theorem picked_photo_is_shown_and_saved (w : World) (uri : string) (now : Z) :
  uri ≠ "" →
  let w' := exec (handlePickImage (Some uri)) w in
  add_photo (renderAdd w') = Some uri
  ∧ (∀ i, shown_input i (renderAdd w') = shown_input i (renderAdd w))
  ∧ image (newRecipe now (form w')) = Some uri
  ∧ card_image (card (newRecipe now (form w'))) = Some uri
  ∧ exec (handlePickImage None) w = w.
Proof.
  intros Hne%String.eqb_neq. cbv zeta. js_unfold. cbn -[String.eqb].
  rewrite Hne. cbn -[String.eqb]. rewrite ?Hne.
  repeat apply conj; done.
Qed.

Lemma picked_photo_is_shown_and_saved_witness :
  add_photo (renderAdd (exec (handlePickImage (Some "file:///p.jpg")) w_add_pasta))
  = Some "file:///p.jpg".
Proof.
  destruct (picked_photo_is_shown_and_saved w_add_pasta "file:///p.jpg" 0)
    as [Hp _]; [discriminate|exact Hp].
Defined.

(** ** A save started while another is in flight *)

(** [handleSave] builds the new collection from the [recipes] of the render
    it was created in.  So when a second save is made (form reopened with
    "+", filled, saved) before the write of the first has settled, and both
    writes then succeed in the order they were started, the collection and
    the blob end up holding the second recipe in front of the old ones: the
    first recipe is in neither, unless it already was in the collection or
    equals the second. *)
Theorem second_save_in_flight_overwrites_first `{JSON}
    (w : World) (n1 n2 : Z) (f2 : Partial.t) :
  truthy (Partial.title (form w)) = true →
  truthy (Partial.ingredients (form w)) = true →
  truthy (Partial.title f2) = true →
  truthy (Partial.ingredients f2) = true →
  ∃ p1 p2 : Task,
    (handleSave n1 w).1 = inr (Some p1)
    ∧ let w1 := exec (setForm f2) (exec pressAdd (handleSave n1 w).2) in
      (handleSave n2 w1).1 = inr (Some p2)
      ∧ let w2 := exec (p2 true) (exec (p1 true) (handleSave n2 w1).2) in
        recipes w2 = newRecipe n2 f2 :: recipes w
        ∧ storage w2 !! STORAGE_KEY
          = Some (JSON_stringify (newRecipe n2 f2 :: recipes w))
        ∧ alerts w2 = alerts w
        ∧ (newRecipe n1 (form w) ∉ recipes w →
           newRecipe n1 (form w) ≠ newRecipe n2 f2 →
           newRecipe n1 (form w) ∉ recipes w2).
Proof.
  intros Ht1 Hi1 Ht2 Hi2. do 2 eexists.
  rewrite handleSave_valid by done. split; [reflexivity|]. cbv zeta.
  rewrite handleSave_valid by done. split; [reflexivity|]. cbn.
  split; [done|]. split; [apply lookup_insert_eq|]. split; [done|].
  intros Hold Hne Hin. apply Hold.
  by apply (elem_of_cons (recipes w)) in Hin as [Heq|Hin].
Qed.

Lemma second_save_in_flight_overwrites_first_witness :
  ∃ p1 p2 : Task,
    (handleSave (H:=RefJSON.json) 1700000000000 w_add_pasta).1 = inr (Some p1)
    ∧ (handleSave (H:=RefJSON.json) 1700000060000
         (exec (setForm pasta_draft)
               (exec pressAdd
                     (handleSave (H:=RefJSON.json) 1700000000000 w_add_pasta).2))).1
      = inr (Some p2)
    ∧ ids (exec (p2 true) (exec (p1 true)
             (handleSave (H:=RefJSON.json) 1700000060000
                (exec (setForm pasta_draft)
                      (exec pressAdd
                            (handleSave (H:=RefJSON.json) 1700000000000
                                        w_add_pasta).2))).2))
      = ["1700000060000"].
Proof.
  destruct (second_save_in_flight_overwrites_first (H:=RefJSON.json) w_add_pasta
              1700000000000 1700000060000 pasta_draft)
    as (p1 & p2 & H1 & H2 & Hr & _); [reflexivity..|].
  exists p1, p2. split; [exact H1|]. split; [exact H2|].
  unfold ids. cbv zeta in Hr. rewrite Hr. reflexivity.
Defined.

(** ** Sessions with writes in flight: what the tasks do *)

Lemma offered_view (e : Event) (s : Session) :
  offered e s = true → is_settle e = false →
  match e with
  | ETapAdd => view (world s) = LIST ∧ dialog s = None
  | ETapRecipe r => view (world s) = LIST ∧ r ∈ recipes (world s) ∧ dialog s = None
  | EType _ _ | EPickImage _ | ETapCancel | ETapSave _ =>
      view (world s) = ADD ∧ dialog s = None
  | ETapCategory cat => view (world s) = ADD ∧ cat ∈ CATEGORIES ∧ dialog s = None
  | ETapBack | ETapBin =>
      view (world s) = DETAIL ∧ is_Some (selectedRecipe (world s)) ∧ dialog s = None
  | EAnswer _ => is_Some (dialog s)
  | ESettle _ _ => False
  end.
Proof.
  unfold offered. destruct e; cbn; try done;
    destruct (dialog s); cbn; try done;
    rewrite ?andb_true_iff, ?bool_decide_eq_true; intros Ho _;
    try (destruct (selectedRecipe (world s)); cbn in * );
    intuition (try discriminate; eauto).
Qed.

Section Sessions.
Context `{JSON}.

(** [handleDelete], run at once, is the task of its closure, settled at once. *)
Lemma handleDelete_from_now (write_ok : bool) (i : string) (w : World) :
  handleDelete write_ok i w = handleDelete_from w i write_ok w.
Proof. reflexivity. Qed.

Lemma handleDelete_rest_exec (l : list Recipe) (sel : option Recipe) (i : string)
    (write_ok : bool) (w : World) :
  exec (handleDelete_rest l sel i write_ok) w =
    let hit := bool_decide (id <$> sel = Some i) in
    mkWorld (if write_ok then l else recipes w)
            (if hit then LIST else view w)
            (if hit then None else selectedRecipe w)
            (loading w) (form w)
            (if write_ok then <[STORAGE_KEY := JSON_stringify l]> (storage w)
             else storage w)
            (if write_ok then alerts w
             else alerts w ++ [("Error", "Failed to save recipe")])
            (if write_ok then console w else console w ++ [StorageError]).
Proof.
  unfold handleDelete_rest. js_unfold. cbn.
  destruct write_ok, (bool_decide (id <$> sel = Some i)); reflexivity.
Qed.

Lemma save_task_exec (l : list Recipe) (write_ok : bool) (w : World) :
  exec (save_task l write_ok) w =
    mkWorld (if write_ok then l else recipes w) (view w) (selectedRecipe w)
            (loading w) (form w)
            (if write_ok then <[STORAGE_KEY := JSON_stringify l]> (storage w)
             else storage w)
            (if write_ok then alerts w
             else alerts w ++ [("Error", "Failed to save recipe")])
            (if write_ok then console w else console w ++ [StorageError]).
Proof. by destruct write_ok. Qed.

(** A task reads and writes neither the form nor the spinner, and leaves
    view and selection alone or ends on the list with nothing selected. *)
Lemma known_task_exec (t : Task) (write_ok : bool) (w : World) :
  known_task t →
  ∃ l v s st al co,
    (∀ f, exec (t write_ok) (exec (setForm f) w)
          = mkWorld l v s (loading w) f st al co)
    ∧ exec (t write_ok) w = mkWorld l v s (loading w) (form w) st al co
    ∧ ((v = view w ∧ s = selectedRecipe w) ∨ (v = LIST ∧ s = None)).
Proof.
  intros [(l & ->)|(l & sel & i & ->)].
  - do 6 eexists. split; [|split]; cycle 1.
    + rewrite save_task_exec. reflexivity.
    + by left.
    + intros f. rewrite save_task_exec. reflexivity.
  - do 6 eexists. split; [|split]; cycle 1.
    + rewrite handleDelete_rest_exec. reflexivity.
    + cbv zeta. case_bool_decide; [by right|by left].
    + intros f. rewrite handleDelete_rest_exec. reflexivity.
Qed.

Lemma step_save_valid (now : Z) (s : Session) :
  truthy (Partial.title (form (world s))) = true →
  truthy (Partial.ingredients (form (world s))) = true →
  step (ETapSave now) s =
    mkSession
      (mkWorld (recipes (world s)) LIST (selectedRecipe (world s)) (loading (world s))
               Partial.empty (storage (world s)) (alerts (world s)) (console (world s)))
      (in_flight s ++ [save_task (newRecipe now (form (world s)) :: recipes (world s))])
      (dialog s).
Proof. intros Ht Hi. unfold step. by rewrite handleSave_valid. Qed.

Lemma step_save_invalid (now : Z) (s : Session) :
  missing (Partial.title (form (world s)))
  ∨ missing (Partial.ingredients (form (world s))) →
  step (ETapSave now) s =
    mkSession
      (mkWorld (recipes (world s)) (view (world s)) (selectedRecipe (world s))
               (loading (world s)) (form (world s)) (storage (world s))
               (alerts (world s)
                ++ [("Missing Fields", "Title and Ingredients are required.")])
               (console (world s)))
      (in_flight s) (dialog s).
Proof. intros Hm. unfold step. by rewrite handleSave_invalid. Qed.

End Sessions.

Section SessionInvariants.
Context `{JSON}.

Lemma handleDelete_from_known (w : World) (i : string) : known_task (handleDelete_from w i).
Proof. right. by do 3 eexists. Qed.

Lemma save_task_known (l : list Recipe) : known_task (save_task l).
Proof. left. by eexists. Qed.

(** Whatever happens, the tasks in flight and behind the dialog are tasks
    of [handleSave] and [handleDelete]. *)
Lemma step_known (e : Event) (s : Session) :
  Forall known_task (in_flight s) → (∀ t, dialog s = Some t → known_task t) →
  Forall known_task (in_flight (step e s))
  ∧ (∀ t, dialog (step e s) = Some t → known_task t).
Proof.
  intros Hf Hd.
  destruct e; cbn [step];
    try (match goal with |- context [mkSession _ (in_flight s) (dialog s)] => idtac end;
         match goal with |- context [handleSave] => fail 1 | |- _ => by split end).
  - destruct (draft_valid_or_invalid (form (world s))) as [[Ht Hi]|Hm].
    + fold (step (ETapSave now) s). rewrite step_save_valid by done. cbn. split; [|done].
      rewrite Forall_app, Forall_singleton. split; [done|]. apply save_task_known.
    + fold (step (ETapSave now) s). by rewrite step_save_invalid.
  - destruct (selectedRecipe (world s)) as [r|]; [|done]. cbn. split; [done|].
    intros t [= <-]. apply handleDelete_from_known.
  - destruct (dialog s) as [t|] eqn:Hdl; [|by rewrite Hdl].
    cbn. split; [|done]. destruct confirmed; [|done].
    rewrite Forall_app, Forall_singleton. split; [done|]. by apply Hd.
  - destruct (in_flight s !! k) as [t|]; [|done]. cbn. split; [|done].
    by apply Forall_delete.
Qed.

Lemma session_known (s : Session) :
  session s →
  Forall known_task (in_flight s) ∧ (∀ t, dialog s = Some t → known_task t).
Proof.
  induction 1 as [read_ok disk _|s e _ [IHf IHd] _]; [by split|].
  by apply step_known.
Qed.

(** On every path the spinner stays off and a shown detail screen has its
    recipe. *)
Lemma step_loaded (e : Event) (s : Session) :
  Forall known_task (in_flight s) →
  offered e s = true →
  loading (world s) = false ∧ detail_has_recipe (world s) →
  loading (world (step e s)) = false ∧ detail_has_recipe (world (step e s)).
Proof.
  intros Hf Ho [Hl Hd]. unfold detail_has_recipe in *.
  destruct e; try (pose proof (offered_view _ _ Ho eq_refl) as Hv; cbn in Hv);
    cbn [step world].
  - by split.
  - split; [done|]. intros _. by eexists.
  - by split.
  - by split.
  - by destruct p as [[uri|]|].
  - by split.
  - destruct (draft_valid_or_invalid (form (world s))) as [[Ht Hi]|Hm].
    + fold (step (ETapSave now) s). rewrite step_save_valid by done. by split.
    + fold (step (ETapSave now) s). rewrite step_save_invalid by done. by split.
  - by split.
  - destruct (selectedRecipe (world s)) as [r|] eqn:Hs; [|by rewrite Hs].
    cbn. split; [done|]. intros _. rewrite Hs. by eexists.
  - destruct (dialog s); by split.
  - destruct (in_flight s !! k) as [t|] eqn:Hk; [|by split].
    apply (Forall_lookup_1 _ _ _ _ Hf) in Hk.
    destruct (known_task_exec t write_ok (world s) Hk)
      as (l & v & sel & st & al & co & _ & -> & [[-> ->]|[-> ->]]); by split.
Qed.

Lemma session_loaded (s : Session) :
  session s → loading (world s) = false ∧ detail_has_recipe (world s).
Proof.
  induction 1 as [read_ok disk _|s e Hs IH Ho].
  - destruct (launch_outcome read_ok disk) as (Hl & Hv & _). split; [done|].
    intros Hd. cbn in Hd. congruence.
  - apply step_loaded; [|done..]. by apply session_known.
Qed.

Lemma run_session (es : list Event) (s : Session) : session s → session (run es s).
Proof.
  revert s. induction es as [|e es IH]; intros s Hs; [done|].
  cbn [run foldl]. fold (run es (if offered e s then step e s else s)).
  apply IH. destruct (offered e s) eqn:Ho; [by apply session_step|done].
Qed.

End SessionInvariants.

Section Serial.
Context `{JSON}.

Lemma handleDelete_from_ends_in_list (w : World) (r : Recipe) :
  selectedRecipe w = Some r → ends_in_list (handleDelete_from w (id r)).
Proof.
  intros Hs write_ok w'. unfold handleDelete_from.
  rewrite handleDelete_rest_exec, Hs. cbn. by rewrite bool_decide_eq_true_2.
Qed.

(** Without overlap: a write in flight is either a delete started from the
    detail screen of the recipe it deletes, which ends on the list, or a
    save, started on the add screen and in flight over the list. *)
Lemma serial_selection_ok (s : Session) :
  serial s →
  selection_ok (world s)
  ∧ (∀ t, dialog s = Some t → ends_in_list t)
  ∧ Forall (λ t, ends_in_list t ∨ (view (world s) = LIST ∧ ∃ l, t = save_task l))
           (in_flight s).
Proof.
  induction 1 as [read_ok disk _|s e _ (IHok & IHd & IHf) Ho Hidle].
  - split; [|by split]. intros Hv.
    destruct (launch_outcome read_ok disk) as (_ & Hl & _). cbn in Hv. congruence.
  - destruct e; try (specialize (Hidle eq_refl));
      try (pose proof (offered_view _ _ Ho eq_refl) as Hv; cbn in Hv);
      cbn [step].
    + cbn. rewrite Hidle. by repeat split.
    + cbn. rewrite Hidle. split; [|by split].
      intros _ r' [= <-]. by destruct Hv as (_ & ? & _).
    + cbn. rewrite Hidle. by repeat split.
    + cbn. rewrite Hidle. by repeat split.
    + cbn. rewrite Hidle. destruct p as [[uri|]|]; by repeat split.
    + cbn. rewrite Hidle. by repeat split.
    + destruct (draft_valid_or_invalid (form (world s))) as [[Ht Hi]|Hm].
      * fold (step (ETapSave now) s). rewrite step_save_valid by done.
        cbn. rewrite Hidle. split; [done|]. split; [done|].
        apply Forall_singleton. right. split; [done|]. by eexists.
      * fold (step (ETapSave now) s). rewrite step_save_invalid by done.
        cbn. rewrite Hidle. by repeat split.
    + cbn. rewrite Hidle. by repeat split.
    + destruct (selectedRecipe (world s)) as [r|] eqn:Hs; [|by repeat split].
      cbn. rewrite Hidle. split; [exact IHok|]. split; [|done].
      intros t [= <-]. by apply handleDelete_from_ends_in_list.
    + destruct (dialog s) as [t|] eqn:Hdl; [|by repeat split].
      cbn. rewrite Hidle. split; [done|]. split; [done|].
      destruct confirmed; [|done]. apply Forall_singleton. left. by apply IHd.
    + destruct (in_flight s !! k) as [t|] eqn:Hk; [|done].
      assert (view (exec (t write_ok) (world s)) = LIST) as Hlist.
      { destruct (Forall_lookup_1 _ _ _ _ IHf Hk) as [Hend|[Hv (l & ->)]].
        - apply Hend.
        - by rewrite save_task_exec. }
      cbn. split; [|split; [done|]].
      * intros Hv. congruence.
      * apply Forall_delete. eapply Forall_impl; [exact IHf|].
        intros t' [?|[_ ?]]; [by left|by right].
Qed.

End Serial.

Section Alike.
Context `{JSON}.

Lemma forget_form_fields (w1 w2 : World) :
  forget_form w1 = forget_form w2 →
  recipes w1 = recipes w2 ∧ view w1 = view w2
  ∧ selectedRecipe w1 = selectedRecipe w2 ∧ loading w1 = loading w2
  ∧ storage w1 = storage w2 ∧ alerts w1 = alerts w2 ∧ console w1 = console w2.
Proof. intros [= ? ? ? ? ? ? ?]. by repeat split. Qed.

Lemma forget_form_render (w1 w2 : World) :
  view w1 ≠ ADD → forget_form w1 = forget_form w2 → render w1 = render w2.
Proof.
  intros Hv (Hr & Hvw & Hs & Hl & _)%forget_form_fields.
  unfold render, renderList, renderDetail. rewrite <- Hr, <- Hvw, <- Hs, <- Hl.
  by destruct (view w1).
Qed.

Lemma alike_offered (e : Event) (s1 s2 : Session) :
  alike s1 s2 → offered e s1 = offered e s2.
Proof.
  intros (Hf & Hd & _ & _ & Hw).
  assert (recipes (world s1) = recipes (world s2) ∧ view (world s1) = view (world s2)
          ∧ selectedRecipe (world s1) = selectedRecipe (world s2)) as (Hr & Hv & Hs).
  { destruct Hw as [->|[_ (? & ? & ? & _)%forget_form_fields]]; by repeat split. }
  unfold offered. by rewrite Hf, Hd, Hr, Hv, Hs.
Qed.

Lemma alike_step (e : Event) (s1 s2 : Session) :
  alike s1 s2 → offered e s1 = true → alike (step e s1) (step e s2).
Proof.
  intros (Hf & Hd & Hkf & Hkd & Hw) Ho.
  destruct (step_known e s1 Hkf Hkd) as [Hkf' Hkd'].
  destruct Hw as [Hw|[Hv Hw]].
  { assert (s1 = s2) as <- by (destruct s1, s2; cbn in *; congruence).
    split; [done|split; [done|split; [done|split; [done|by left]]]]. }
  pose proof (forget_form_fields _ _ Hw) as (Hr & Hvw & Hs & Hl & Hst & Hal & Hco).
  unfold alike. split; [|split; [|split; [done|split; [done|]]]].
  - destruct e; cbn [step in_flight]; try done.
    + pose proof (offered_view _ _ Ho eq_refl) as [? _]. done.
    + by rewrite <- Hs; destruct (selectedRecipe (world s1)).
    + rewrite <- Hd. destruct (dialog s1) eqn:Hd1; [|done]. cbn. by rewrite Hf.
    + rewrite <- Hf. destruct (in_flight s1 !! k) eqn:Hk; [|done]. cbn. by rewrite Hf.
  - destruct e; cbn [step dialog]; try done.
    + pose proof (offered_view _ _ Ho eq_refl) as [? _]. done.
    + rewrite <- Hs. destruct (selectedRecipe (world s1)) eqn:Hs1; [|done]. cbn.
      unfold handleDelete_from. congruence.
    + rewrite <- Hd. destruct (dialog s1) eqn:Hd1; [done|congruence].
    + rewrite <- Hf. destruct (in_flight s1 !! k) eqn:Hk; [done|congruence].
  - destruct e; try (pose proof (offered_view _ _ Ho eq_refl) as Hoff; cbn in Hoff);
      try (by destruct Hoff as [? _]); cbn [step world].
    + left. unfold pressAdd. js_unfold. cbn. by rewrite Hr, Hs, Hl, Hst, Hal, Hco.
    + right. split; [done|]. unfold forget_form. js_unfold. cbn.
      by rewrite Hr, Hl, Hst, Hal, Hco.
    + right. split; [done|]. unfold forget_form. js_unfold. cbn.
      by rewrite Hr, Hs, Hl, Hst, Hal, Hco.
    + rewrite <- Hs. destruct (selectedRecipe (world s1)) eqn:Hs1; [|by right].
      right. split; [done|]. unfold forget_form. js_unfold. cbn.
      f_equal; congruence.
    + rewrite <- Hd. destruct (dialog s1) eqn:Hd1; by right.
    + rewrite <- Hf. destruct (in_flight s1 !! k) as [t|] eqn:Hk; [|by right].
      apply (Forall_lookup_1 _ _ _ _ Hkf) in Hk.
      destruct (known_task_exec t write_ok (forget_form (world s1)) Hk)
        as (l & v & sel & st & al & co & Hex & _ & Hvs).
      assert (∀ w, w = exec (setForm (form w)) (forget_form w)) as Hback
        by (by intros []).
      assert (exec (t write_ok) (world s1)
              = mkWorld l v sel (loading (forget_form (world s1))) (form (world s1))
                        st al co) as E1
        by (rewrite (Hback (world s1)) at 1; apply Hex).
      assert (exec (t write_ok) (world s2)
              = mkWorld l v sel (loading (forget_form (world s1))) (form (world s2))
                        st al co) as E2
        by (rewrite (Hback (world s2)) at 1; rewrite <- Hw; apply Hex).
      cbn [world]. rewrite E1, E2. right. split; [|done].
      destruct Hvs as [[-> _]|[-> _]]; [exact Hv|done].
Qed.

Lemma alike_run (es : list Event) (s1 s2 : Session) :
  alike s1 s2 → alike (run es s1) (run es s2).
Proof.
  revert s1 s2. induction es as [|e es IH]; intros s1 s2 Ha; [done|].
  cbn [run foldl].
  fold (run es (if offered e s1 then step e s1 else s1)).
  fold (run es (if offered e s2 then step e s2 else s2)).
  apply IH. rewrite <- (alike_offered e s1 s2 Ha).
  destruct (offered e s1) eqn:Ho; [by apply alike_step|done].
Qed.

End Alike.

(** ** One action at a time is a special case *)

(** An action of [perform], on a world with nothing in flight, is the run of
    its events: the tap, then at once the answer and the settlement. *)
Lemma perform_is_run `{JSON} (a : Action) (w : World) :
  enabled a w → run (events_of a) (idle w) = idle (exec (perform a) w).
Proof.
  intros He.
  assert (offered (hd ETapAdd (events_of a)) (idle w) = true) as Ho.
  { destruct a; cbn in He |- *; repeat case_bool_decide; try tauto;
      destruct He as [_ [r ->]]; done. }
  destruct a; cbn [events_of hd run foldl perform] in *; rewrite Ho; try reflexivity.
  - destruct (draft_valid_or_invalid (form w)) as [[Ht Hi]|Hm].
    + rewrite step_save_valid, handleSave_settled_valid by done.
      cbn. by destruct write_ok.
    + rewrite step_save_invalid, handleSave_settled_invalid by done. reflexivity.
  - destruct He as [_ [r Hs]]. cbn [step idle world in_flight dialog].
    rewrite Hs, pressDelete_exec, Hs. cbn [offered dialog step in_flight world].
    destruct confirmed; [|reflexivity].
    rewrite app_nil_l, bool_decide_eq_true_2 by (cbn; lia). reflexivity.
Qed.

(** A creation of [creates] is the run of a save and the settlement of its
    write, with nothing else in between. *)
Lemma create_is_run `{JSON} (c : Creation) (w : World) :
  idle (create c w)
  = run [ETapSave (c_now c); ESettle 0 (c_write_ok c)]
        (idle (exec (setForm (c_draft c)) (exec pressAdd w))).
Proof.
  symmetry.
  apply (perform_is_run (TapSave (c_now c) (c_write_ok c))
           (exec (setForm (c_draft c)) (exec pressAdd w))).
  reflexivity.
Qed.

(** ** The draft after a cancel *)

(** C5, as the code has it.  "Cancel" on the add screen goes to the list
    screen and leaves the draft (and the collection, and the writes in
    flight) as it was; the draft is reset when the add screen is entered with
    "+".  From the cancel on, whatever is then done and whenever the writes
    in flight settle, the screen, the collection, the store and the alerts
    are those of the session in which the cancel had emptied the form, and
    whenever the add screen is up the two worlds are equal: a cancelled
    draft is never shown again, nor saved. *)
Theorem cancelled_draft_is_never_seen `{JSON}
    (w : World) (tasks : list Task) (es : list Event) :
  Forall known_task tasks →
  let sc := step ETapCancel (mkSession w tasks None) in
  let sr := mkSession (forget_form (world sc)) tasks None in
  (view (world sc) = LIST ∧ form (world sc) = form w
   ∧ recipes (world sc) = recipes w ∧ in_flight sc = tasks)
  ∧ (view (world (step ETapAdd sc)) = ADD
     ∧ form (world (step ETapAdd sc)) = Partial.empty
     ∧ view (exec pressAdd w) = ADD ∧ form (exec pressAdd w) = Partial.empty)
  ∧ (render (world (run es sc)) = render (world (run es sr))
     ∧ recipes (world (run es sc)) = recipes (world (run es sr))
     ∧ storage (world (run es sc)) = storage (world (run es sr))
     ∧ alerts (world (run es sc)) = alerts (world (run es sr))
     ∧ in_flight (run es sc) = in_flight (run es sr)
     ∧ (view (world (run es sc)) = ADD → world (run es sc) = world (run es sr))).
Proof.
  intros Hk. cbv zeta. split; [by repeat split|]. split; [by repeat split|].
  assert (alike (step ETapCancel (mkSession w tasks None))
                (mkSession (forget_form (world (step ETapCancel (mkSession w tasks None))))
                           tasks None)) as Ha.
  { split; [done|]. split; [done|]. split; [done|]. split; [done|]. by right. }
  apply (alike_run es) in Ha. destruct Ha as (Hf & _ & _ & _ & [Hw|[Hv Hw]]).
  - rewrite Hw. by repeat split.
  - pose proof (forget_form_fields _ _ Hw) as (Hr & _ & _ & _ & Hst & Hal & _).
    split; [by apply forget_form_render|]. by repeat split.
Qed.

Lemma cancelled_draft_is_never_seen_witness :
  form (world (step (H:=RefJSON.json) ETapCancel s_add_pasta)) = pasta_draft
  ∧ render (world (run (H:=RefJSON.json) [ESettle 0 true; ETapAdd]
                       (step (H:=RefJSON.json) ETapCancel s_add_pasta)))
    = render (world (run (H:=RefJSON.json) [ESettle 0 true; ETapAdd]
                         (mkSession (forget_form (world (step (H:=RefJSON.json)
                                                              ETapCancel s_add_pasta)))
                                    [save_task (H:=RefJSON.json) [salad]] None))).
Proof.
  destruct (cancelled_draft_is_never_seen (H:=RefJSON.json) w_add_pasta
              [save_task (H:=RefJSON.json) [salad]] [ESettle 0 true; ETapAdd])
    as ((_ & Hform & _) & _ & Hrender & _).
  - apply Forall_singleton. left. by eexists.
  - split; [exact Hform | exact Hrender].
Defined.

(** ** The selected recipe *)

(** C6, as the code has it.  As long as the user does nothing while a write
    is in flight, the detail screen always shows a recipe of the collection,
    also while a write is in flight.  With nothing in flight, a
    [handleDelete], whatever its id and however it is triggered, that leaves
    the collection without the recipe shown clears the selection and goes to
    LIST, and keeps the invariant; and the bin of the detail screen,
    confirmed, ends with the list screen, nothing selected and nothing in
    flight, the recipe gone from the collection when the write succeeded. *)
Theorem selection_kept_without_overlap `{JSON} (s : Session) :
  serial s →
  selection_ok (world s)
  ∧ (in_flight s = [] →
     (∀ (write_ok : bool) (i : string),
        let w' := exec (handleDelete write_ok i) (world s) in
        selection_ok w'
        ∧ ∀ r, view (world s) = DETAIL → selectedRecipe (world s) = Some r →
               r ∉ recipes w' → selectedRecipe w' = None ∧ view w' = LIST)
     ∧ (∀ (write_ok : bool) (r : Recipe),
          offered ETapBin s = true → selectedRecipe (world s) = Some r →
          let s' := run [ETapBin; EAnswer true; ESettle 0 write_ok] s in
          view (world s') = LIST ∧ selectedRecipe (world s') = None
          ∧ in_flight s' = []
          ∧ recipes (world s')
            = if write_ok then filter (λ r', id r' ≠ id r) (recipes (world s))
              else recipes (world s))).
Proof.
  intros Hser. destruct (serial_selection_ok s Hser) as (Hok & _ & _).
  split; [exact Hok|]. intros Hidle. split.
  - intros write_ok i. cbv zeta. split; [by apply handleDelete_selection_ok|].
    intros r Hv Hs Hgone. rewrite handleDelete_exec in *. cbn in *.
    case_bool_decide as Hhit; [done|]. exfalso. apply Hgone.
    specialize (Hok Hv r Hs). destruct write_ok; [|done].
    apply list_elem_of_filter. split; [|done].
    intros <-. apply Hhit. by rewrite Hs.
  - intros write_ok r Ho Hs. cbv zeta. cbn [run foldl]. rewrite Ho.
    cbn [step]. rewrite Hs. cbn [offered dialog step in_flight world].
    rewrite Hidle, app_nil_l, bool_decide_eq_true_2 by (cbn; lia).
    change ([handleDelete_from (world s) (id r)] !! 0)
      with (Some (handleDelete_from (world s) (id r))).
    cbn [world in_flight]. unfold handleDelete_from.
    rewrite handleDelete_rest_exec, Hs. cbn.
    rewrite bool_decide_eq_true_2 by done. by destruct write_ok.
Qed.

Lemma selection_kept_without_overlap_witness :
  view (world s_detail_pasta) = DETAIL
  ∧ selectedRecipe (world s_detail_pasta) = Some pasta
  ∧ selectedRecipe (exec (handleDelete (H:=RefJSON.json) true "1700000000000")
                         (world s_detail_pasta)) = None
  ∧ view (exec (handleDelete (H:=RefJSON.json) true "1700000000000")
               (world s_detail_pasta)) = LIST.
Proof.
  assert (serial (H:=RefJSON.json) s_detail_pasta) as Hser.
  { change (serial (H:=RefJSON.json)
              (step (H:=RefJSON.json) (ETapRecipe pasta)
                    (idle (launch (H:=RefJSON.json) true pasta_disk)))).
    apply (serial_step (H:=RefJSON.json)); [|reflexivity|reflexivity].
    apply (serial_launch (H:=RefJSON.json)).
    unfold typed_store, pasta_disk. rewrite lookup_singleton_eq.
    right. exists [pasta]. split; reflexivity. }
  destruct (selection_kept_without_overlap (H:=RefJSON.json) s_detail_pasta Hser)
    as [_ Hdel].
  destruct (Hdel eq_refl) as [Hany _].
  destruct (Hany true "1700000000000") as [_ Hclear].
  destruct (Hclear pasta) as [Hs Hv].
  - reflexivity.
  - reflexivity.
  - vm_compute. apply not_elem_of_nil.
  - repeat split; assumption.
Defined.

(** C6, as stated, fails when writes overlap: the pasta is saved, a salad is
    saved before the write of the pasta has settled, the first write
    settles, the card of the pasta is tapped, the second write settles and
    puts in memory the collection its closure had built, without the pasta.
    The detail screen then shows a recipe that is not in the collection. *)
Lemma overlapping_saves_break_selection :
  session (H:=RefJSON.json) s_overlap
  ∧ view (world s_overlap) = DETAIL
  ∧ selectedRecipe (world s_overlap) = Some pasta
  ∧ ids (world s_overlap) = ["1700000060000"]
  ∧ (pasta ∉ recipes (world s_overlap))
  ∧ in_flight s_overlap = [].
Proof.
  split.
  { apply (run_session (H:=RefJSON.json)), (session_launch (H:=RefJSON.json)).
    unfold typed_store. by rewrite lookup_empty. }
  repeat split.
  intros Hin. apply (list_elem_of_fmap_2 id) in Hin.
  change (id pasta ∈ ["1700000060000"]) in Hin.
  apply list_elem_of_singleton in Hin. discriminate.
Qed.

(** ** What the screens show, on every path *)

(** In every session state reached from a launch over a store the
    application can have written (or an empty or unreadable one), whatever
    is done while writes are in flight and however they settle, something is
    on the screen: neither the spinner of the launch nor the empty output of
    a detail screen without a selected recipe. *)
Theorem session_screen_is_never_blank `{JSON} (s : Session) :
  session s → render (world s) ≠ Spinner ∧ render (world s) ≠ DetailScreen None.
Proof.
  intros [Hl Hd]%session_loaded. unfold render, renderDetail. rewrite Hl.
  split; [by destruct (view (world s))|].
  destruct (view (world s)) eqn:Hv; [done..|].
  destruct (Hd Hv) as [r ->]. done.
Qed.

Lemma session_screen_is_never_blank_witness :
  render (world s_detail_pasta) ≠ Spinner
  ∧ render (world s_detail_pasta) ≠ DetailScreen None.
Proof.
  apply (session_screen_is_never_blank (H:=RefJSON.json) s_detail_pasta).
  apply (run_session (H:=RefJSON.json)), (session_launch (H:=RefJSON.json)).
  unfold typed_store, pasta_disk. rewrite lookup_singleton_eq.
  right. exists [pasta]. split; reflexivity.
Defined.

(** ** Which failures are caught *)

(** With a collection of the declared type, a rejected [AsyncStorage] call
    and a [SyntaxError] of [JSON.parse] never leave [loadRecipes],
    [saveRecipesToStorage], [handleSave] and the write it leaves in flight,
    [handleDelete], or any task in flight: each returns normally.  The
    picker is the one awaited call outside a [try]: its rejection leaves
    [handlePickImage], with the world as it was. *)
Theorem storage_failures_are_caught_picker_is_not `{JSON} :
  (∀ read_ok w, (loadRecipes read_ok w).1 = inr ())
  ∧ (∀ write_ok l w, (saveRecipesToStorage write_ok l w).1 = inr ())
  ∧ (∀ now w, ∃ pending,
       (handleSave now w).1 = inr pending
       ∧ ∀ write_ok w', (settle write_ok pending w').1 = inr ())
  ∧ (∀ write_ok i w, (handleDelete write_ok i w).1 = inr ())
  ∧ (∀ t write_ok w, known_task t → (t write_ok w).1 = inr ())
  ∧ (∀ result w, (handlePickImage_awaited (PickerResolved result) w).1 = inr ())
  ∧ (∀ w, handlePickImage_awaited PickerRejected w = (inl PickerError, w)).
Proof.
  assert (∀ write_ok l w, (saveRecipesToStorage write_ok l w).1 = inr ()) as Hsave
    by (by intros []).
  assert (∀ l sel i write_ok w, (handleDelete_rest l sel i write_ok w).1 = inr ())
    as Hrest.
  { intros l sel i write_ok w. unfold handleDelete_rest. js_unfold.
    destruct write_ok; cbn; case_bool_decide; reflexivity. }
  split; [|split; [done|split; [|split; [|split; [|split]]]]].
  - intros read_ok w. js_unfold. destruct read_ok; [|done].
    destruct (storage w !! STORAGE_KEY) as [j|]; [|done].
    by destruct (JSON_parse j).
  - intros now w. destruct (draft_valid_or_invalid (form w)) as [[Ht Hi]|Hm].
    + eexists. rewrite handleSave_valid by done. split; [reflexivity|].
      intros write_ok w'. apply Hsave.
    + eexists. rewrite handleSave_invalid by done. split; [reflexivity|done].
  - intros write_ok i w. rewrite handleDelete_from_now. apply Hrest.
  - intros t write_ok w [(l & ->)|(l & sel & i & ->)]; [apply Hsave|apply Hrest].
  - intros [uri|] w; reflexivity.
  - reflexivity.
Qed.
